(** * sw.js, the service worker of the dosage calculator

    A shallow embedding of the three event handlers of [sw.js]
    ([install], [activate], [fetch]) over a model of the host they
    run in: the network, the cache storage, the console.

    A promise chain of the source is a computation over the state of the
    host that settles as fulfilled or rejected; [.then], [.catch] and
    [Promise.all] are the combinators [then_], [catch_] and [Promise_all].
    A chain is run at the point where the source creates it, so a chain
    that the source starts and drops (the cache writes of the fetch
    handler) has had its effect on the state that the handler leaves.

    The calls to the host are listed chain by chain.  In [activate] the
    call that the handler makes in the same turn, after building its
    chain, is listed where the event loop has it, before the callbacks of
    the chain.  In [install_with] the attempts are listed one after the
    other and [skipWaiting] after them; what is proved of the install is
    about the requests fetched, the console and the stores, and about the
    order of the calls only where the store does not open. *)

From Stdlib Require Import String List ZArith Bool Lia.
Import ListNotations.
Open Scope string_scope.
Open Scope Z_scope.
Open Scope list_scope.

Set Implicit Arguments.

(** ** Requests, responses, errors *)

(** The fields of a request that the worker or the host reads.  A url is
    taken as resolved: two requests are for the same resource when their
    urls are the same string. *)
Record Request := mkRequest {
  method : string;
  mode : string;
  url : string;
  cache : string
}.

Record Response := mkResponse {
  status : Z;
  type : string;
  body : string
}.

(** The value a promise is rejected with. *)
Definition JsError := string.

(** [new Request(url, {cache: 'reload'})]: a GET request, mode [cors]. *)
Definition new_Request_reload (u : string) : Request :=
  mkRequest "GET" "cors" u "reload".

(** [response.clone()]: a second response with the same content. *)
Definition clone (r : Response) : Response := r.

(** [response.ok] of the fetch standard. *)
Definition ok (r : Response) : bool :=
  (200 <=? status r) && (status r <=? 299).

(** ** Settled promises *)

Inductive Outcome (A : Type) : Type :=
| Fulfilled (a : A)
| Rejected (e : JsError).

Arguments Fulfilled {A} a.
Arguments Rejected {A} e.

(** ** The cache storage

    A cache holds its entries in insertion order, keyed by url; the cache
    storage holds its named caches in creation order, the order in which
    [caches.keys()] lists them and [caches.match] searches them. *)

Definition Cache := list (string * Response).
Definition CacheStorage := list (string * Cache).

Fixpoint cache_lookup (c : Cache) (u : string) : option Response :=
  match c with
  | [] => None
  | (k, r) :: c' => if String.eqb k u then Some r else cache_lookup c' u
  end.

(** [cache.match(request)]: only a GET request matches. *)
Definition cache_match (c : Cache) (rq : Request) : option Response :=
  if String.eqb (method rq) "GET" then cache_lookup c (url rq) else None.

(** [cache.put]: the entries for the url are replaced by the new one. *)
Definition cache_insert (c : Cache) (u : string) (r : Response) : Cache :=
  filter (fun e => negb (String.eqb (fst e) u)) c ++ [(u, r)].

Fixpoint storage_find (S : CacheStorage) (name : string) : option Cache :=
  match S with
  | [] => None
  | (n, c) :: S' => if String.eqb n name then Some c else storage_find S' name
  end.

Definition storage_has (S : CacheStorage) (name : string) : bool :=
  existsb (fun e => String.eqb (fst e) name) S.

(** [caches.open(name)] creates the cache when there is none of that name. *)
Definition storage_open (S : CacheStorage) (name : string) : CacheStorage :=
  if storage_has S name then S else S ++ [(name, [])].

Definition storage_delete (S : CacheStorage) (name : string) : CacheStorage :=
  filter (fun e => negb (String.eqb (fst e) name)) S.

Definition storage_put (S : CacheStorage) (name : string) (u : string)
    (r : Response) : CacheStorage :=
  map (fun e => if String.eqb (fst e) name
                then (fst e, cache_insert (snd e) u r) else e) S.

(** [caches.match(request)]: the first match, over the caches in creation
    order. *)
Fixpoint storage_match (S : CacheStorage) (rq : Request) : option Response :=
  match S with
  | [] => None
  | (_, c) :: S' =>
      match cache_match c rq with
      | Some r => Some r
      | None => storage_match S' rq
      end
  end.

(** The entry of the cache [name] for a url. *)
Definition store_entry (S : CacheStorage) (name : string) (u : string)
    : option Response :=
  match storage_find S name with
  | Some c => cache_lookup c u
  | None => None
  end.

(** ** The host *)

(** What the handlers ask of the host, in the order they ask. *)
Inductive Call : Type :=
| CallFetch (rq : Request)
| CallCachesOpen (name : string)
| CallCachesKeys
| CallCachesDelete (name : string)
| CallCachesMatch (rq : Request)
| CallCachePut (name : string) (rq : Request) (resp : Response)
| CallSkipWaiting
| CallClientsClaim.

Inductive Level : Type := Log | Warn | Error.

(** A line of the console: the level and the arguments printed. *)
Definition LogEntry := (Level * list string)%type.

(** The state a handler runs on: the cache storage, the console, the calls
    made to the host, and the rejections that no handler of the worker
    received. *)
Record World := mkWorld {
  stores : CacheStorage;
  console : list LogEntry;
  calls : list Call;
  unhandled : list JsError
}.

(** The answers of the host that the worker does not decide: how a network
    fetch settles, and whether the storage refuses to open a cache or to
    write an entry (quota, an unsupported scheme, ...).  Reading the storage
    and deleting a cache always succeed. *)
Record Host := mkHost {
  network : Request -> Outcome (option Response);
  open_fault : string -> option JsError;
  put_fault : string -> Request -> Response -> option JsError
}.

Definition with_stores (S : CacheStorage) (w : World) : World :=
  mkWorld S (console w) (calls w) (unhandled w).

Definition with_call (c : Call) (w : World) : World :=
  mkWorld (stores w) (console w) (calls w ++ [c]) (unhandled w).

Definition with_line (l : LogEntry) (w : World) : World :=
  mkWorld (stores w) (console w ++ [l]) (calls w) (unhandled w).

Definition with_unhandled (e : JsError) (w : World) : World :=
  mkWorld (stores w) (console w) (calls w) (unhandled w ++ [e]).

(** ** Promises *)

Definition Promise (A : Type) : Type := World -> Outcome A * World.

Definition resolve {A} (a : A) : Promise A := fun w => (Fulfilled a, w).

Definition reject {A} (e : JsError) : Promise A := fun w => (Rejected e, w).

(** The promise of a call that was made earlier and has settled with [o]:
    what a chain goes on from when the handler did something else between
    making the call and the callback of its [.then]. *)
Definition settled {A} (o : Outcome A) : Promise A := fun w => (o, w).

(** [p.then(f)] *)
Definition then_ {A B} (p : Promise A) (f : A -> Promise B) : Promise B :=
  fun w =>
    match p w with
    | (Fulfilled a, w') => f a w'
    | (Rejected e, w') => (Rejected e, w')
    end.

(** [p.catch(g)] *)
Definition catch_ {A} (p : Promise A) (g : JsError -> Promise A) : Promise A :=
  fun w =>
    match p w with
    | (Fulfilled a, w') => (Fulfilled a, w')
    | (Rejected e, w') => g e w'
    end.

(** A promise that the source creates and neither returns nor passes on: it
    runs, its value is dropped, and a rejection reaches no handler. *)
Definition detached {A} (p : Promise A) : Promise unit :=
  fun w =>
    match p w with
    | (Fulfilled _, w') => (Fulfilled tt, w')
    | (Rejected e, w') => (Fulfilled tt, with_unhandled e w')
    end.

(** [Promise.all(ps)]: every promise of the array has been started and
    settles; the result is the array of the values, or the first rejection. *)
Fixpoint Promise_all {A} (ps : list (Promise A)) : Promise (list A) :=
  fun w =>
    match ps with
    | [] => (Fulfilled [], w)
    | p :: ps' =>
        let (o, w1) := p w in
        let (os, w2) := Promise_all ps' w1 in
        match o, os with
        | Fulfilled a, Fulfilled l => (Fulfilled (a :: l), w2)
        | Fulfilled _, Rejected e => (Rejected e, w2)
        | Rejected e, _ => (Rejected e, w2)
        end
    end.

Declare Scope promise_scope.
Delimit Scope promise_scope with promise.
Notation "x <- p ;; q" := (then_ p (fun x => q))
  (at level 100, p at next level, right associativity) : promise_scope.
Notation "p ;; q" := (then_ p (fun _ => q))
  (at level 100, right associativity) : promise_scope.
Open Scope promise_scope.

(** A statement of a callback that settles nothing: it only acts on the
    state. *)
Definition do_ (f : World -> World) : Promise unit :=
  fun w => (Fulfilled tt, f w).

(** The value of a chain one of whose branches returns nothing: [Some] of
    the value on this branch, [None] for [undefined] on the other. *)
Definition defined {A} (p : Promise A) : Promise (option A) :=
  x <- p ;; resolve (Some x).

Definition console_log (args : list string) : World -> World :=
  with_line (Log, args).

Definition console_warn (args : list string) : World -> World :=
  with_line (Warn, args).

Definition console_error (args : list string) : World -> World :=
  with_line (Error, args).

(** [array.indexOf(x)] *)
Fixpoint indexOf_from (i : Z) (l : list string) (x : string) : Z :=
  match l with
  | [] => -1
  | y :: l' => if String.eqb y x then i else indexOf_from (i + 1) l' x
  end.

Definition indexOf (l : list string) (x : string) : Z := indexOf_from 0 l x.

(** ** The worker *)

Definition CACHE_NAME : string := "dosage-calculator-cache-v1.3".

Definition urlsToCache : list string := ["./"; "./index.html"].

Section Worker.

Variable host : Host.

(** *** The calls to the host *)

Definition fetch (rq : Request) : Promise (option Response) :=
  fun w => (network host rq, with_call (CallFetch rq) w).

(** [caches.open(name)]; the cache object it gives is known by its name. *)
Definition caches_open (name : string) : Promise string :=
  fun w =>
    let w1 := with_call (CallCachesOpen name) w in
    match open_fault host name with
    | Some e => (Rejected e, w1)
    | None => (Fulfilled name, with_stores (storage_open (stores w1) name) w1)
    end.

Definition caches_keys : Promise (list string) :=
  fun w => (Fulfilled (map fst (stores w)), with_call CallCachesKeys w).

Definition caches_delete (name : string) : Promise bool :=
  fun w =>
    let w1 := with_call (CallCachesDelete name) w in
    (Fulfilled (storage_has (stores w) name),
     with_stores (storage_delete (stores w1) name) w1).

Definition caches_match (rq : Request) : Promise (option Response) :=
  fun w => (Fulfilled (storage_match (stores w) rq),
            with_call (CallCachesMatch rq) w).

Definition cache_put (name : string) (rq : Request) (resp : Response)
    : Promise unit :=
  fun w =>
    let w1 := with_call (CallCachePut name rq resp) w in
    match put_fault host name rq resp with
    | Some e => (Rejected e, w1)
    | None =>
        (Fulfilled tt,
         with_stores (storage_put (stores w1) name (url rq) resp) w1)
    end.

(** [cache.add(request)]: fetch the request, refuse a response that is not
    [ok], put the response. *)
Definition cache_add (name : string) (rq : Request) : Promise unit :=
  response <- fetch rq ;;
  match response with
  | Some r => if ok r then cache_put name rq r else reject "TypeError"
  | None => reject "TypeError"
  end.

(** *** install (sw.js, lines 13 to 32)

    The result is how the promise given to [event.waitUntil] settles. *)
Definition install_with (urls : list string)
    : World -> Outcome (option (list unit)) * World :=
  fun w =>
    let w0 := console_log ["[ServiceWorker] Install"] w in
    let (waitUntil, w1) :=
      catch_
        (cache <- caches_open CACHE_NAME ;;
         do_ (console_log ["[ServiceWorker] Caching app shell"]) ;;
         let cachePromises :=
           map (fun urlToCache =>
                  catch_ (cache_add cache (new_Request_reload urlToCache))
                    (fun err =>
                       do_ (console_warn
                              [String.append "[ServiceWorker] Failed to cache "
                                 (String.append urlToCache ":"); err])))
               urls in
         defined (Promise_all cachePromises))
        (fun error =>
           do_ (console_error
                  ["[ServiceWorker] Failed to cache during install:"; error]) ;;
           resolve None)
        w0 in
    (waitUntil, with_call CallSkipWaiting w1).

Definition install := install_with urlsToCache.

(** *** activate (sw.js, lines 35 to 51)

    [caches.keys()] is called where the chain is built (line 39) and
    [self.clients.claim()] (line 50) in the same turn, after it; the
    callback of [.then], with the deletions, runs after both.  The result
    is how the promise given to [event.waitUntil] settles. *)
Definition activate : World -> Outcome (list (option bool)) * World :=
  fun w =>
    let w0 := console_log ["[ServiceWorker] Activate"] w in
    let cacheWhitelist := [CACHE_NAME] in
    let (keys, w1) := caches_keys w0 in
    let w2 := with_call CallClientsClaim w1 in
    (cacheNames <- settled keys ;;
     Promise_all
       (map (fun cacheName =>
               if indexOf cacheWhitelist cacheName =? -1
               then
                 do_ (console_log
                        ["[ServiceWorker] Deleting old cache:"; cacheName]) ;;
                 defined (caches_delete cacheName)
               else resolve None)
            cacheNames))
      w2.

(** *** fetch (sw.js, lines 54 to 137)

    [None] when the handler returns without [event.respondWith], so that
    the request is left to the browser; otherwise how the promise given to
    [event.respondWith] settles, [None] in it for a response that is
    [undefined]. *)

(** [!response || response.status !== 200 || response.type !== 'basic'] *)
Definition navigate_invalid (response : option Response) : bool :=
  match response with
  | None => true
  | Some r => negb (status r =? 200) || negb (String.eqb (type r) "basic")
  end.

(** [!networkResponse || networkResponse.status !== 200] *)
Definition asset_invalid (networkResponse : option Response) : bool :=
  match networkResponse with
  | None => true
  | Some r => negb (status r =? 200)
  end.

(** A cache write of the handler is [caches.open(CACHE_NAME).then(...)],
    started and dropped, and in its callback a [cache.put] that is started
    and dropped too.  Where the response is valid it is present: the [None]
    case of the inner [match] is never reached. *)

Definition respond_navigate (rq : Request) : Promise (option Response) :=
  catch_
    (response <- fetch rq ;;
     if navigate_invalid response then
       cachedResponse <- caches_match rq ;;
       match cachedResponse with
       | Some c =>
           do_ (console_log
                  ["[ServiceWorker] Serving from cache (navigate - network failed):";
                   url rq]) ;;
           resolve (Some c)
       | None =>
           do_ (console_log
                  ["[ServiceWorker] Network and cache failed for navigate:";
                   url rq]) ;;
           resolve response
       end
     else
       match response with
       | Some r =>
           let responseToCache := clone r in
           detached
             (cache <- caches_open CACHE_NAME ;;
              do_ (console_log
                     ["[ServiceWorker] Caching new response (navigate):";
                      url rq]) ;;
              detached (cache_put cache rq responseToCache)) ;;
           resolve response
       | None => resolve response
       end)
    (fun _ =>
       cachedResponse <- caches_match rq ;;
       match cachedResponse with
       | Some c =>
           do_ (console_log
                  ["[ServiceWorker] Serving from cache (navigate - network error):";
                   url rq]) ;;
           resolve (Some c)
       | None =>
           do_ (console_log
                  ["[ServiceWorker] No cache match for navigate after network error:";
                   url rq]) ;;
           resolve None
       end).

Definition respond_asset (rq : Request) : Promise (option Response) :=
  response <- caches_match rq ;;
  match response with
  | Some c => resolve (Some c)
  | None =>
      catch_
        (networkResponse <- fetch rq ;;
         if asset_invalid networkResponse then resolve networkResponse
         else
           match networkResponse with
           | Some r =>
               let responseToCache := clone r in
               detached
                 (cache <- caches_open CACHE_NAME ;;
                  detached (cache_put cache rq responseToCache)) ;;
               resolve networkResponse
           | None => resolve networkResponse
           end)
        (fun error =>
           do_ (console_warn
                  ["[ServiceWorker] Fetch failed for asset:"; url rq; error]) ;;
           resolve None)
  end.

Definition fetch_handler (rq : Request)
    : World -> option (Outcome (option Response)) * World :=
  fun w =>
    if negb (String.eqb (method rq) "GET") then (None, w)
    else if String.eqb (mode rq) "navigate" then
      let (o, w') := respond_navigate rq w in (Some o, w')
    else
      let (o, w') := respond_asset rq w in (Some o, w').

End Worker.

(** ** What the theorems speak of *)

(** The requests that were fetched from the network, among calls. *)
Fixpoint fetched (cs : list Call) : list Request :=
  match cs with
  | [] => []
  | CallFetch rq :: cs' => rq :: fetched cs'
  | _ :: cs' => fetched cs'
  end.

(** A call that, if it is a write into a cache, writes the response of
    status 200 to a GET request. *)
Definition put_of_200_GET (c : Call) : Prop :=
  match c with
  | CallCachePut _ rq resp => method rq = "GET" /\ status resp = 200
  | _ => True
  end.

(** A call that, if it opens or writes a cache, names [CACHE_NAME]. *)
Definition targets_current (c : Call) : Prop :=
  match c with
  | CallCachesOpen name => name = CACHE_NAME
  | CallCachePut name _ _ => name = CACHE_NAME
  | _ => True
  end.

(** Every response held by the storage has status 200. *)
Definition all_200 (S : CacheStorage) : Prop :=
  forall name c u r, In (name, c) S -> In (u, r) c -> status r = 200.

(** The fetch handler on one event after the other. *)
Fixpoint serve (events : list (Host * Request)) (w : World) : World :=
  match events with
  | [] => w
  | (host, rq) :: events' => serve events' (snd (fetch_handler host rq w))
  end.

(** What the deletions of the activate handler leave of a storage, for the
    names that [caches.keys()] gave. *)
Definition swept (names : list string) (S : CacheStorage) : CacheStorage :=
  fold_left
    (fun S name => if String.eqb CACHE_NAME name then S
                   else storage_delete S name)
    names S.

Section Precache.

Variable host : Host.

(** How [cache.add] of the pre-cache request for a url settles on the
    store [CACHE_NAME]: with the response it has stored, or with the error
    of the fetch, of the status or of the write. *)
Definition attempt (u : string) : Outcome Response :=
  match network host (new_Request_reload u) with
  | Fulfilled (Some r) =>
      if ok r then
        match put_fault host CACHE_NAME (new_Request_reload u) r with
        | Some e => Rejected e
        | None => Fulfilled r
        end
      else Rejected "TypeError"
  | Fulfilled None => Rejected "TypeError"
  | Rejected e => Rejected e
  end.

(** The storage after the attempts for a list of urls. *)
Definition precached (urls : list string) (S : CacheStorage) : CacheStorage :=
  fold_left
    (fun S u => match attempt u with
                | Fulfilled r => storage_put S CACHE_NAME u r
                | Rejected _ => S
                end)
    urls S.

Definition failure_line (u : string) (e : JsError) : LogEntry :=
  (Warn, [String.append "[ServiceWorker] Failed to cache "
            (String.append u ":"); e]).

End Precache.

(** ** Scenarios

    Concrete hosts, requests and states on which the theorems below are
    instantiated. *)
Module Scenario.

Definition page : Response := mkResponse 200 "basic" "<html>calculator</html>".
Definition old_page : Response := mkResponse 200 "basic" "<html>v1.2</html>".
Definition not_found : Response := mkResponse 404 "basic" "Not Found".
Definition old_script : Response := mkResponse 200 "basic" "calc()".

Definition navigation : Request :=
  mkRequest "GET" "navigate" "https://example.org/app/" "default".
Definition script : Request :=
  mkRequest "GET" "no-cors" "https://example.org/app/calc.js" "default".
Definition form_post : Request :=
  mkRequest "POST" "cors" "https://example.org/app/save" "default".

(** The network answers every request with the page. *)
Definition online : Host :=
  mkHost (fun _ => Fulfilled (Some page)) (fun _ => None) (fun _ _ _ => None).

(** The network is there, the storage refuses every write. *)
Definition full_disk : Host :=
  mkHost (fun _ => Fulfilled (Some page)) (fun _ => None)
         (fun _ _ _ => Some "QuotaExceededError").

Definition offline : Host :=
  mkHost (fun _ => Rejected "TypeError: Failed to fetch") (fun _ => None)
         (fun _ _ _ => None).

Definition missing : Host :=
  mkHost (fun _ => Fulfilled (Some not_found)) (fun _ => None)
         (fun _ _ _ => None).

(** Only [./] can be fetched. *)
Definition root_only : Host :=
  mkHost (fun rq => if String.eqb (url rq) "./" then Fulfilled (Some page)
                    else Rejected "TypeError: Failed to fetch")
         (fun _ => None) (fun _ _ _ => None).

Definition fresh : World := mkWorld [] [] [] [].

(** A store of the version before and the store of this version. *)
Definition upgraded : World :=
  mkWorld
    [("dosage-calculator-cache-v1.2",
      [("https://example.org/app/", old_page);
       ("https://example.org/app/calc.js", old_script)]);
     (CACHE_NAME, [])]
    [] [] [].

(** The store of this version holds the page already. *)
Definition visited : World :=
  mkWorld [(CACHE_NAME, [("./", old_page)])] [] [] [].

(** A response of status 200 that is not of type [basic]. *)
Definition cdn_script : Response := mkResponse 200 "cors" "chart()".

(** The network answers every request with the cross-origin script. *)
Definition cdn : Host :=
  mkHost (fun _ => Fulfilled (Some cdn_script)) (fun _ => None)
         (fun _ _ _ => None).

(** The storage refuses to open a cache. *)
Definition no_storage : Host :=
  mkHost (fun _ => Fulfilled (Some page)) (fun _ => Some "SecurityError")
         (fun _ _ _ => None).

(** A navigation to the first url of the pre-cache list. *)
Definition shell : Request := mkRequest "GET" "navigate" "./" "default".

End Scenario.

(** The proofs do not look into the version string. *)
Opaque CACHE_NAME.

(** ** Promises: how a chain runs *)

Lemma then_fulfilled {A B} (p : Promise A) (f : A -> Promise B)
    (w w1 : World) (a : A) :
  p w = (Fulfilled a, w1) -> then_ p f w = f a w1.
Proof. intros H. unfold then_. rewrite H. reflexivity. Qed.

Lemma then_rejected {A B} (p : Promise A) (f : A -> Promise B)
    (w w1 : World) (e : JsError) :
  p w = (Rejected e, w1) -> then_ p f w = (Rejected e, w1).
Proof. intros H. unfold then_. rewrite H. reflexivity. Qed.

Lemma catch_fulfilled {A} (p : Promise A) (g : JsError -> Promise A)
    (w w1 : World) (a : A) :
  p w = (Fulfilled a, w1) -> catch_ p g w = (Fulfilled a, w1).
Proof. intros H. unfold catch_. rewrite H. reflexivity. Qed.

Lemma catch_rejected {A} (p : Promise A) (g : JsError -> Promise A)
    (w w1 : World) (e : JsError) :
  p w = (Rejected e, w1) -> catch_ p g w = g e w1.
Proof. intros H. unfold catch_. rewrite H. reflexivity. Qed.

(** ** The cache storage: lemmas *)

Lemma cache_lookup_insert (c : Cache) (u u' : string) (r : Response) :
  cache_lookup (cache_insert c u r) u' =
  if String.eqb u u' then Some r else cache_lookup c u'.
Proof.
  unfold cache_insert.
  induction c as [|[k r0] c IH]; simpl.
  - reflexivity.
  - destruct (String.eqb k u) eqn:Eku; simpl.
    + rewrite IH. apply String.eqb_eq in Eku. subst k.
      destruct (String.eqb u u'); reflexivity.
    + destruct (String.eqb k u') eqn:Eku'.
      * apply String.eqb_eq in Eku'. subst k.
        rewrite String.eqb_sym, Eku. reflexivity.
      * exact IH.
Qed.

Lemma storage_find_put (S : CacheStorage) (n n' u : string) (r : Response) :
  storage_find (storage_put S n u r) n' =
  if String.eqb n' n
  then option_map (fun c => cache_insert c u r) (storage_find S n)
  else storage_find S n'.
Proof.
  destruct (String.eqb n' n) eqn:En.
  - apply String.eqb_eq in En. subst n'.
    induction S as [|[k c] S IH]; simpl; [reflexivity|].
    destruct (String.eqb k n) eqn:Ekn; simpl; rewrite Ekn;
      [reflexivity | exact IH].
  - induction S as [|[k c] S IH]; simpl; [reflexivity|].
    destruct (String.eqb k n) eqn:Ekn; simpl.
    + apply String.eqb_eq in Ekn. subst k.
      rewrite String.eqb_sym, En. exact IH.
    + destruct (String.eqb k n'); [reflexivity | exact IH].
Qed.

Lemma storage_has_find (S : CacheStorage) (n : string) :
  storage_has S n = true <-> exists c, storage_find S n = Some c.
Proof.
  unfold storage_has.
  induction S as [|[k c] S IH]; simpl.
  - split; [discriminate | intros [c H]; discriminate].
  - destruct (String.eqb k n); simpl.
    + split; [intros _; exists c; reflexivity | reflexivity].
    + exact IH.
Qed.

Lemma storage_find_app (S T : CacheStorage) (n : string) :
  storage_find (S ++ T) n =
  match storage_find S n with
  | Some c => Some c
  | None => storage_find T n
  end.
Proof.
  induction S as [|[k c] S IH]; simpl; [reflexivity|].
  destruct (String.eqb k n); [reflexivity | exact IH].
Qed.

Lemma storage_open_has (S : CacheStorage) (n : string) :
  storage_has (storage_open S n) n = true.
Proof.
  unfold storage_open.
  destruct (storage_has S n) eqn:E; [exact E|].
  unfold storage_has. rewrite existsb_app. simpl.
  rewrite String.eqb_refl. apply orb_true_iff. right. reflexivity.
Qed.

Lemma storage_open_entry (S : CacheStorage) (n n' u : string) :
  store_entry (storage_open S n) n' u = store_entry S n' u.
Proof.
  unfold storage_open, store_entry.
  destruct (storage_has S n) eqn:E; [reflexivity|].
  rewrite storage_find_app. simpl.
  destruct (storage_find S n') eqn:F; [reflexivity|].
  destruct (String.eqb n n'); reflexivity.
Qed.

Lemma storage_put_has (S : CacheStorage) (n n' u : string) (r : Response) :
  storage_has (storage_put S n u r) n' = storage_has S n'.
Proof.
  unfold storage_has, storage_put.
  induction S as [|[k c] S IH]; simpl; [reflexivity|].
  rewrite IH. destruct (String.eqb k n); reflexivity.
Qed.

(** The entry that a put leaves in a cache that exists. *)
Lemma store_entry_put (S : CacheStorage) (n u u' : string) (r : Response) :
  storage_has S n = true ->
  store_entry (storage_put S n u r) n u' =
  if String.eqb u u' then Some r else store_entry S n u'.
Proof.
  intros H. apply storage_has_find in H. destruct H as [c Hc].
  unfold store_entry. rewrite storage_find_put, String.eqb_refl, Hc. simpl.
  apply cache_lookup_insert.
Qed.

Lemma storage_match_app (S T : CacheStorage) (rq : Request) :
  storage_match (S ++ T) rq =
  match storage_match S rq with
  | Some r => Some r
  | None => storage_match T rq
  end.
Proof.
  induction S as [|[k c] S IH]; simpl; [reflexivity|].
  destruct (cache_match c rq); [reflexivity | exact IH].
Qed.

Lemma filter_filter {A} (f g : A -> bool) (l : list A) :
  filter f (filter g l) = filter (fun x => g x && f x) l.
Proof.
  induction l as [|x l IH]; simpl; [reflexivity|].
  destruct (g x); simpl; [destruct (f x)|]; rewrite IH; reflexivity.
Qed.

(** ** activate *)

Lemma indexOf_whitelist (name : string) :
  (indexOf [CACHE_NAME] name =? -1) = negb (String.eqb CACHE_NAME name).
Proof.
  unfold indexOf, indexOf_from.
  destruct (String.eqb CACHE_NAME name); reflexivity.
Qed.

Lemma swept_filter (names : list string) : forall S,
  swept names S =
  filter (fun e => String.eqb (fst e) CACHE_NAME
                   || negb (existsb (String.eqb (fst e)) names)) S.
Proof.
  unfold swept.
  induction names as [|n names IH]; intros S; simpl.
  - symmetry. apply forallb_filter_id. apply forallb_forall.
    intros e _. apply orb_true_r.
  - rewrite IH. destruct (String.eqb CACHE_NAME n) eqn:E.
    + apply filter_ext. intros e.
      apply String.eqb_eq in E. subst n.
      destruct (String.eqb (fst e) CACHE_NAME); reflexivity.
    + unfold storage_delete. rewrite filter_filter.
      apply filter_ext. intros e.
      destruct (String.eqb (fst e) n) eqn:En; simpl; [|reflexivity].
      apply String.eqb_eq in En. rewrite En, String.eqb_sym, E. reflexivity.
Qed.

Lemma swept_keys (S : CacheStorage) :
  swept (map fst S) S = filter (fun e => String.eqb (fst e) CACHE_NAME) S.
Proof.
  rewrite swept_filter. apply filter_ext_in. intros e He.
  assert (H : existsb (String.eqb (fst e)) (map fst S) = true).
  { apply existsb_exists. exists (fst e). split.
    - apply in_map. exact He.
    - apply String.eqb_refl. }
  rewrite H. apply orb_false_r.
Qed.

Lemma activate_sweep (names : list string) : forall w,
  exists vs w',
    Promise_all
      (map (fun cacheName =>
              if indexOf [CACHE_NAME] cacheName =? -1
              then
                do_ (console_log
                       ["[ServiceWorker] Deleting old cache:"; cacheName]) ;;
                defined (caches_delete cacheName)
              else resolve None)
           names) w = (Fulfilled vs, w')
    /\ stores w' = swept names (stores w)
    /\ unhandled w' = unhandled w.
Proof.
  set (cb := fun cacheName : string => _).
  induction names as [|n names IH]; intros w.
  - exists [], w. simpl. auto.
  - cbn [map Promise_all].
    destruct (cb n w) as [o w1] eqn:Hcb.
    destruct (IH w1) as (vs & w' & Hrun & Hst & Hun). rewrite Hrun.
    unfold cb in Hcb. rewrite indexOf_whitelist in Hcb.
    unfold swept in *. cbn [fold_left].
    destruct (String.eqb CACHE_NAME n) eqn:E; cbn [negb] in Hcb.
    + inversion Hcb; subst o w1. exists (None :: vs), w'. auto.
    + unfold then_, do_, defined, then_, caches_delete, resolve in Hcb.
      inversion Hcb; subst o w1.
      exists (Some (storage_has (stores w) n) :: vs), w'. auto.
Qed.

(** C2. Whatever stores exist when the activate handler runs, its promise
    is fulfilled and the storage it leaves is the storage it found
    restricted to the stores named [CACHE_NAME]: a store of any other name
    is gone. *)
Theorem activate_leaves_only_current (w : World) :
  (exists vs, fst (activate w) = Fulfilled vs)
  /\ stores (snd (activate w)) =
     filter (fun e => String.eqb (fst e) CACHE_NAME) (stores w)
  /\ (forall name, In name (map fst (stores (snd (activate w)))) ->
        name = CACHE_NAME)
  /\ (forall name, name <> CACHE_NAME ->
        storage_has (stores (snd (activate w))) name = false).
Proof.
  assert (Hrun : exists vs w',
             activate w = (Fulfilled vs, w')
             /\ stores w' =
                filter (fun e => String.eqb (fst e) CACHE_NAME) (stores w)).
  { unfold activate, caches_keys. unfold then_ at 1. unfold settled.
    match goal with
    | |- context [Promise_all (map ?f ?l) ?w1] =>
        destruct (activate_sweep l w1) as (vs & w' & Hrun & Hst & _)
    end.
    rewrite Hrun. exists vs, w'. split; [reflexivity|].
    rewrite Hst. simpl. apply swept_keys. }
  destruct Hrun as (vs & w' & Hrun & Hst).
  rewrite Hrun. simpl. rewrite Hst.
  split; [exists vs; reflexivity|]. split; [reflexivity|]. split.
  - intros name Hin. apply in_map_iff in Hin.
    destruct Hin as (e & Hname & He). apply filter_In in He.
    destruct He as [_ He]. apply String.eqb_eq in He. congruence.
  - intros name Hname. unfold storage_has.
    destruct (existsb _ _) eqn:Ex; [|reflexivity].
    apply existsb_exists in Ex. destruct Ex as (e & He & Hn).
    apply filter_In in He. destruct He as [_ He].
    apply String.eqb_eq in He, Hn. congruence.
Qed.

(** ** fetch *)

(** Unfolds a chain of the fetch handler down to the calls to the host. *)
Ltac run_chain :=
  unfold respond_navigate, respond_asset, then_, catch_, detached, defined,
    fetch, caches_match, caches_open, cache_put, do_, resolve, reject.

Lemma fetched_app (cs ds : list Call) :
  fetched (cs ++ ds) = fetched cs ++ fetched ds.
Proof.
  induction cs as [|c cs IH]; simpl; [reflexivity|].
  destruct c; simpl; rewrite IH; reflexivity.
Qed.

(** C7. For a request whose method is not GET the handler returns without
    responding, and the state it leaves is the state it found: no call to
    the host was made, no store was read or written. *)
Theorem fetch_ignores_non_GET (host : Host) (rq : Request) (w : World) :
  method rq <> "GET" ->
  fetch_handler host rq w = (None, w).
Proof.
  intros Hmethod. unfold fetch_handler.
  apply String.eqb_neq in Hmethod. rewrite Hmethod. reflexivity.
Qed.

Lemma fetch_ignores_non_GET_witness :
  fetch_handler Scenario.online Scenario.form_post Scenario.upgraded =
  (None, Scenario.upgraded).
Proof.
  apply fetch_ignores_non_GET. simpl. discriminate.
Defined.

(** C3, as the handler has it. A GET navigation request that the network
    answers with a response of status 200 and type [basic] is answered
    with that response; and when the storage accepts the write, the store
    [CACHE_NAME] then holds the clone of the response under the url of the
    request. *)
Theorem navigate_online_responds_and_caches
    (host : Host) (rq : Request) (r : Response) (w : World) :
  method rq = "GET" ->
  mode rq = "navigate" ->
  network host rq = Fulfilled (Some r) ->
  status r = 200 ->
  type r = "basic" ->
  fst (fetch_handler host rq w) = Some (Fulfilled (Some r))
  /\ (open_fault host CACHE_NAME = None ->
      put_fault host CACHE_NAME rq (clone r) = None ->
      store_entry (stores (snd (fetch_handler host rq w)))
        CACHE_NAME (url rq) = Some (clone r)).
Proof.
  intros Hmethod Hmode Hnet Hstatus Htype.
  unfold fetch_handler. rewrite Hmethod, Hmode. simpl.
  run_chain. rewrite Hnet. unfold navigate_invalid.
  rewrite Hstatus, Htype. simpl.
  destruct (open_fault host CACHE_NAME) as [e|]; simpl.
  - split; [reflexivity | discriminate].
  - destruct (put_fault host CACHE_NAME rq (clone r)) as [e|]; simpl.
    + split; [reflexivity | discriminate].
    + split; [reflexivity|]. intros _ _.
      rewrite store_entry_put by apply storage_open_has.
      rewrite String.eqb_refl. reflexivity.
Qed.

Lemma navigate_online_responds_and_caches_witness :
  fst (fetch_handler Scenario.online Scenario.navigation Scenario.upgraded) =
    Some (Fulfilled (Some Scenario.page))
  /\ store_entry
       (stores (snd (fetch_handler Scenario.online Scenario.navigation
                       Scenario.upgraded)))
       CACHE_NAME "https://example.org/app/" = Some Scenario.page.
Proof.
  destruct (@navigate_online_responds_and_caches
              Scenario.online Scenario.navigation Scenario.page
              Scenario.upgraded eq_refl eq_refl eq_refl eq_refl eq_refl)
    as [Hresp Hstore].
  split; [exact Hresp | exact (Hstore eq_refl eq_refl)].
Defined.

(** C3 as it is stated fails where it says that the store then holds an
    entry for the request: the write is started and dropped, and when the
    storage refuses it, the page is answered with the response of the
    network, of status 200 and type [basic], and the store [CACHE_NAME]
    holds nothing for the request, which no store matches. *)
Lemma navigate_online_refused_write_leaves_no_entry :
  method Scenario.navigation = "GET"
  /\ mode Scenario.navigation = "navigate"
  /\ network Scenario.full_disk Scenario.navigation =
     Fulfilled (Some Scenario.page)
  /\ status Scenario.page = 200
  /\ type Scenario.page = "basic"
  /\ fst (fetch_handler Scenario.full_disk Scenario.navigation
            Scenario.fresh) = Some (Fulfilled (Some Scenario.page))
  /\ store_entry
       (stores (snd (fetch_handler Scenario.full_disk Scenario.navigation
                       Scenario.fresh)))
       CACHE_NAME (url Scenario.navigation) = None
  /\ storage_match
       (stores (snd (fetch_handler Scenario.full_disk Scenario.navigation
                       Scenario.fresh)))
       Scenario.navigation = None.
Proof. repeat split. Qed.

(** C4. A GET navigation request whose network fetch is rejected is
    answered from the storage: with the entry that matches the request,
    as it is stored, when there is one, and with no response when there is
    none.  The promise of the handler is fulfilled in both cases, no
    rejection is left unhandled, and the storage is as it was. *)
Theorem navigate_offline_falls_back
    (host : Host) (rq : Request) (e : JsError) (w : World) :
  method rq = "GET" ->
  mode rq = "navigate" ->
  network host rq = Rejected e ->
  (forall c, storage_match (stores w) rq = Some c ->
     fst (fetch_handler host rq w) = Some (Fulfilled (Some c)))
  /\ (storage_match (stores w) rq = None ->
     fst (fetch_handler host rq w) = Some (Fulfilled None))
  /\ unhandled (snd (fetch_handler host rq w)) = unhandled w
  /\ stores (snd (fetch_handler host rq w)) = stores w.
Proof.
  intros Hmethod Hmode Hnet.
  unfold fetch_handler. rewrite Hmethod, Hmode. simpl.
  run_chain. rewrite Hnet. simpl.
  case_eq (storage_match (stores w) rq).
  - intros c Hc. simpl. repeat split.
    + intros c' Hc'. congruence.
    + discriminate.
  - intros Hc. simpl. repeat split. discriminate.
Qed.

Lemma navigate_offline_falls_back_witness :
  fst (fetch_handler Scenario.offline Scenario.navigation Scenario.upgraded) =
    Some (Fulfilled (Some Scenario.old_page))
  /\ fst (fetch_handler Scenario.offline Scenario.navigation Scenario.fresh) =
    Some (Fulfilled None)
  /\ unhandled
       (snd (fetch_handler Scenario.offline Scenario.navigation
               Scenario.fresh)) = [].
Proof.
  split; [|split].
  - apply (@navigate_offline_falls_back
             Scenario.offline Scenario.navigation
             "TypeError: Failed to fetch" Scenario.upgraded
             eq_refl eq_refl eq_refl).
    reflexivity.
  - apply (@navigate_offline_falls_back
             Scenario.offline Scenario.navigation
             "TypeError: Failed to fetch" Scenario.fresh
             eq_refl eq_refl eq_refl).
    reflexivity.
  - apply (@navigate_offline_falls_back
             Scenario.offline Scenario.navigation
             "TypeError: Failed to fetch" Scenario.fresh
             eq_refl eq_refl eq_refl).
Defined.

(** C5. A GET request that is not a navigation and that an entry of the
    storage matches is answered with that entry as it is stored; the only
    call to the host is the lookup, so nothing is fetched from the
    network. *)
Theorem asset_hit_skips_network
    (host : Host) (rq : Request) (c : Response) (w : World) :
  method rq = "GET" ->
  mode rq <> "navigate" ->
  storage_match (stores w) rq = Some c ->
  fst (fetch_handler host rq w) = Some (Fulfilled (Some c))
  /\ calls (snd (fetch_handler host rq w)) = calls w ++ [CallCachesMatch rq]
  /\ fetched (calls (snd (fetch_handler host rq w))) = fetched (calls w).
Proof.
  intros Hmethod Hmode Hhit.
  unfold fetch_handler. rewrite Hmethod.
  apply String.eqb_neq in Hmode. rewrite Hmode. simpl.
  run_chain. rewrite Hhit. simpl.
  repeat split. rewrite fetched_app. simpl. apply app_nil_r.
Qed.

Lemma asset_hit_skips_network_witness :
  fst (fetch_handler Scenario.online Scenario.script Scenario.upgraded) =
    Some (Fulfilled (Some Scenario.old_script))
  /\ calls (snd (fetch_handler Scenario.online Scenario.script
                   Scenario.upgraded)) = [CallCachesMatch Scenario.script]
  /\ fetched (calls (snd (fetch_handler Scenario.online Scenario.script
                            Scenario.upgraded))) = [].
Proof.
  apply (@asset_hit_skips_network
           Scenario.online Scenario.script Scenario.old_script
           Scenario.upgraded eq_refl).
  - simpl. discriminate.
  - reflexivity.
Defined.

(** C6. A GET request that is not a navigation, that no entry matches and
    that the network answers with a response of a status other than 200
    is answered with that response.  The storage is left as it was, so
    still without a match, and the same request handled again, whatever
    the network then answers, is looked up and fetched from the network
    again. *)
Theorem asset_miss_not_200_leaves_cache
    (host : Host) (rq : Request) (r : Response) (w : World) :
  method rq = "GET" ->
  mode rq <> "navigate" ->
  storage_match (stores w) rq = None ->
  network host rq = Fulfilled (Some r) ->
  status r <> 200 ->
  fst (fetch_handler host rq w) = Some (Fulfilled (Some r))
  /\ stores (snd (fetch_handler host rq w)) = stores w
  /\ storage_match (stores (snd (fetch_handler host rq w))) rq = None
  /\ fetched (calls (snd (fetch_handler host rq w))) =
     fetched (calls w) ++ [rq]
  /\ forall host', 
       fetched (calls (snd (fetch_handler host' rq
                              (snd (fetch_handler host rq w))))) =
       fetched (calls w) ++ [rq; rq].
Proof.
  intros Hmethod Hmode Hmiss Hnet Hstatus.
  assert (Hagain : forall h w0,
            storage_match (stores w0) rq = None ->
            fetched (calls (snd (fetch_handler h rq w0))) =
            fetched (calls w0) ++ [rq]).
  { intros h w0 Hmiss0. unfold fetch_handler. rewrite Hmethod.
    apply String.eqb_neq in Hmode. rewrite Hmode. simpl.
    run_chain. rewrite Hmiss0. simpl.
    destruct (network h rq) as [[r0|]|e0]; simpl.
    - destruct (status r0 =? 200); simpl.
      + destruct (open_fault h CACHE_NAME); simpl.
        * rewrite !fetched_app; simpl. rewrite !app_nil_r. reflexivity.
        * destruct (put_fault h CACHE_NAME rq (clone r0)); simpl;
            rewrite !fetched_app; simpl; rewrite !app_nil_r; reflexivity.
      + rewrite !fetched_app; simpl. rewrite !app_nil_r. reflexivity.
    - rewrite !fetched_app; simpl. rewrite !app_nil_r. reflexivity.
    - rewrite !fetched_app; simpl. rewrite !app_nil_r. reflexivity. }
  assert (Hrun : fetch_handler host rq w =
                 (Some (Fulfilled (Some r)),
                  with_call (CallFetch rq)
                    (with_call (CallCachesMatch rq) w))).
  { unfold fetch_handler. rewrite Hmethod.
    apply String.eqb_neq in Hmode. rewrite Hmode. simpl.
    run_chain. rewrite Hmiss. simpl. rewrite Hnet. simpl.
    apply Z.eqb_neq in Hstatus. rewrite Hstatus. reflexivity. }
  split; [rewrite Hrun; reflexivity|].
  split; [rewrite Hrun; reflexivity|].
  split; [rewrite Hrun; exact Hmiss|].
  split; [apply Hagain; exact Hmiss|].
  intros host'. rewrite Hagain.
  - rewrite Hagain by exact Hmiss. rewrite <- app_assoc. reflexivity.
  - rewrite Hrun. exact Hmiss.
Qed.

Lemma asset_miss_not_200_leaves_cache_witness :
  fst (fetch_handler Scenario.missing Scenario.script Scenario.fresh) =
    Some (Fulfilled (Some Scenario.not_found))
  /\ stores (snd (fetch_handler Scenario.missing Scenario.script
                    Scenario.fresh)) = []
  /\ fetched
       (calls (snd (fetch_handler Scenario.online Scenario.script
                      (snd (fetch_handler Scenario.missing Scenario.script
                              Scenario.fresh))))) =
     [Scenario.script; Scenario.script].
Proof.
  destruct (@asset_miss_not_200_leaves_cache
              Scenario.missing Scenario.script Scenario.not_found
              Scenario.fresh eq_refl)
    as (Hresp & Hstores & _ & _ & Hagain).
  - simpl. discriminate.
  - reflexivity.
  - reflexivity.
  - simpl. discriminate.
  - split; [exact Hresp|]. split; [exact Hstores|].
    exact (Hagain Scenario.online).
Defined.

(** *** What the handler writes *)

Lemma all_200_open (S : CacheStorage) (n : string) :
  all_200 S -> all_200 (storage_open S n).
Proof.
  unfold all_200, storage_open. intros H name c u r Hin Hc.
  destruct (storage_has S n); [eauto|].
  apply in_app_or in Hin. destruct Hin as [Hin|Hin]; [eauto|].
  simpl in Hin. destruct Hin as [Hin|[]]. inversion Hin; subst.
  destruct Hc.
Qed.

Lemma all_200_put (S : CacheStorage) (n u : string) (r : Response) :
  status r = 200 -> all_200 S -> all_200 (storage_put S n u r).
Proof.
  unfold all_200, storage_put. intros Hr H name c u' r' Hin Hc.
  apply in_map_iff in Hin. destruct Hin as ([k c0] & Heq & Hin).
  simpl in Heq. destruct (String.eqb k n).
  - inversion Heq; subst. unfold cache_insert in Hc.
    apply in_app_or in Hc. destruct Hc as [Hc|Hc].
    + apply filter_In in Hc. destruct Hc as [Hc _]. eauto.
    + simpl in Hc. destruct Hc as [Hc|[]]. inversion Hc; subst. exact Hr.
  - inversion Heq; subst. eauto.
Qed.

(** Closes a goal on the calls that a run has added, once the run is
    unfolded: the list is read off the state. *)
Ltac added_calls :=
  eexists; rewrite <- ?app_assoc;
  split; [reflexivity|]; split; repeat constructor; auto.

(** One event: the calls it adds, and what is known of them. *)
Lemma fetch_handler_writes (host : Host) (rq : Request) (w : World) :
  (exists cs, calls (snd (fetch_handler host rq w)) = calls w ++ cs
              /\ Forall put_of_200_GET cs
              /\ Forall targets_current cs)
  /\ (all_200 (stores w) -> all_200 (stores (snd (fetch_handler host rq w)))).
Proof.
  assert (Hwrite : forall r S,
            status r = 200 -> all_200 S ->
            all_200 (storage_put (storage_open S CACHE_NAME) CACHE_NAME
                       (url rq) (clone r))).
  { intros r S Hr HS. apply all_200_put; [exact Hr|].
    apply all_200_open. exact HS. }
  unfold fetch_handler.
  destruct (String.eqb (method rq) "GET") eqn:Hmethod; simpl.
  2:{ split; [exists []; rewrite app_nil_r; auto | auto]. }
  apply String.eqb_eq in Hmethod.
  destruct (String.eqb (mode rq) "navigate"); run_chain;
    unfold navigate_invalid, asset_invalid; simpl.
  - (* navigation *)
    destruct (network host rq) as [[r|]|e]; simpl;
      [destruct (status r =? 200) eqn:Hstatus; simpl;
         [apply Z.eqb_eq in Hstatus;
          destruct (String.eqb (type r) "basic"); simpl|]|..].
    + destruct (open_fault host CACHE_NAME); simpl.
      * split; [added_calls | auto].
      * destruct (put_fault host CACHE_NAME rq (clone r)); simpl.
        -- split; [added_calls | apply all_200_open].
        -- split; [added_calls | apply Hwrite; exact Hstatus].
    + destruct (storage_match (stores w) rq); simpl;
        (split; [added_calls | auto]).
    + destruct (storage_match (stores w) rq); simpl;
        (split; [added_calls | auto]).
    + destruct (storage_match (stores w) rq); simpl;
        (split; [added_calls | auto]).
    + destruct (storage_match (stores w) rq); simpl;
        (split; [added_calls | auto]).
  - (* asset *)
    destruct (storage_match (stores w) rq); simpl;
      [split; [added_calls | auto]|].
    destruct (network host rq) as [[r|]|e]; simpl;
      [destruct (status r =? 200) eqn:Hstatus; simpl;
         [apply Z.eqb_eq in Hstatus|]|..].
    + destruct (open_fault host CACHE_NAME); simpl.
      * split; [added_calls | auto].
      * destruct (put_fault host CACHE_NAME rq (clone r)); simpl.
        -- split; [added_calls | apply all_200_open].
        -- split; [added_calls | apply Hwrite; exact Hstatus].
    + split; [added_calls | auto].
    + split; [added_calls | auto].
    + split; [added_calls | auto].
Qed.

(** C9. Over any sequence of fetch events, from any state: every write
    into a cache that the handler asks for is of a response of status 200
    to a GET request, on the navigation branch and on the asset branch;
    and a storage that held only responses of status 200 still holds only
    such responses. *)
Theorem fetch_persists_only_200_GET
    (events : list (Host * Request)) (w : World) :
  (exists cs, calls (serve events w) = calls w ++ cs
              /\ Forall put_of_200_GET cs)
  /\ (all_200 (stores w) -> all_200 (stores (serve events w))).
Proof.
  revert w. induction events as [|[host rq] events IH]; intros w; simpl.
  - split; [exists []; rewrite app_nil_r; auto | auto].
  - destruct (fetch_handler_writes host rq w)
      as [(cs & Hcs & Hput & _) Hstores].
    destruct (IH (snd (fetch_handler host rq w)))
      as [(ds & Hds & Hput') Hstores'].
    split.
    + exists (cs ++ ds). rewrite Hds, Hcs, app_assoc.
      split; [reflexivity|]. apply Forall_app. auto.
    + auto.
Qed.

Lemma fetch_persists_only_200_GET_witness :
  all_200
    (stores
       (serve [(Scenario.missing, Scenario.script);
               (Scenario.online, Scenario.navigation);
               (Scenario.online, Scenario.form_post);
               (Scenario.online, Scenario.script)]
          Scenario.upgraded)).
Proof.
  apply fetch_persists_only_200_GET.
  unfold all_200, Scenario.upgraded. simpl.
  intros name c u r [H|[H|[]]] Hc; inversion H; subst; simpl in Hc.
  - destruct Hc as [Hc|[Hc|[]]]; inversion Hc; reflexivity.
  - destruct Hc.
Defined.

(** C10. The lookups of the fetch handler are [caches.match], over all the
    stores, and its writes open and write [CACHE_NAME] alone.  So when the
    first store in which a GET request has a match is one of another name,
    an old version that is still there, that entry is what the handler
    answers with: on the asset branch, on the navigation branch when the
    fetch is rejected, and on the navigation branch when the response
    fetched is missing, not of status 200 or not of type [basic]. *)
Theorem lookups_span_stores_writes_target_current
    (host : Host) (rq : Request) (w : World) :
  method rq = "GET" ->
  (exists cs, calls (snd (fetch_handler host rq w)) = calls w ++ cs
              /\ Forall targets_current cs)
  /\ (forall before name c after r,
        stores w = before ++ (name, c) :: after ->
        name <> CACHE_NAME ->
        storage_match before rq = None ->
        cache_match c rq = Some r ->
        (mode rq <> "navigate" ->
           fst (fetch_handler host rq w) = Some (Fulfilled (Some r)))
        /\ (mode rq = "navigate" ->
            forall e, network host rq = Rejected e ->
            fst (fetch_handler host rq w) = Some (Fulfilled (Some r)))
        /\ (mode rq = "navigate" ->
            forall response, network host rq = Fulfilled response ->
            navigate_invalid response = true ->
            fst (fetch_handler host rq w) = Some (Fulfilled (Some r)))).
Proof.
  intros Hmethod. split.
  - destruct (fetch_handler_writes host rq w) as [(cs & Hcs & _ & Ht) _].
    exists cs. auto.
  - intros before name c after r Hstores _ Hbefore Hc.
    assert (Hmatch : storage_match (stores w) rq = Some r).
    { rewrite Hstores, storage_match_app, Hbefore. simpl.
      rewrite Hc. reflexivity. }
    unfold fetch_handler. rewrite Hmethod. simpl.
    split; [|split].
    + intros Hmode. apply String.eqb_neq in Hmode. rewrite Hmode.
      run_chain. rewrite Hmatch. reflexivity.
    + intros Hmode e Hnet. rewrite Hmode. simpl.
      run_chain. rewrite Hnet. simpl. rewrite Hmatch. reflexivity.
    + intros Hmode response Hnet Hinvalid. rewrite Hmode. simpl.
      run_chain. rewrite Hnet, Hinvalid. simpl. rewrite Hmatch. reflexivity.
Qed.

Lemma lookups_span_stores_writes_target_current_witness :
  fst (fetch_handler Scenario.online Scenario.script Scenario.upgraded) =
    Some (Fulfilled (Some Scenario.old_script))
  /\ fst (fetch_handler Scenario.offline Scenario.navigation
            Scenario.upgraded) = Some (Fulfilled (Some Scenario.old_page))
  /\ fst (fetch_handler Scenario.missing Scenario.navigation
            Scenario.upgraded) = Some (Fulfilled (Some Scenario.old_page)).
Proof.
  pose proof (@lookups_span_stores_writes_target_current
                Scenario.online Scenario.script Scenario.upgraded eq_refl)
    as [_ Hscript].
  pose proof (@lookups_span_stores_writes_target_current
                Scenario.offline Scenario.navigation Scenario.upgraded
                eq_refl) as [_ Hoff].
  pose proof (@lookups_span_stores_writes_target_current
                Scenario.missing Scenario.navigation Scenario.upgraded
                eq_refl) as [_ Hmiss].
  assert (Hold : "dosage-calculator-cache-v1.2" <> CACHE_NAME)
    by (vm_compute; discriminate).
  split; [|split].
  - refine (proj1 (Hscript [] "dosage-calculator-cache-v1.2" _
                     [(CACHE_NAME, [])] Scenario.old_script
                     eq_refl Hold eq_refl eq_refl) _).
    simpl. discriminate.
  - exact (proj1 (proj2 (Hoff [] "dosage-calculator-cache-v1.2" _
                           [(CACHE_NAME, [])] Scenario.old_page
                           eq_refl Hold eq_refl eq_refl))
             eq_refl "TypeError: Failed to fetch" eq_refl).
  - exact (proj2 (proj2 (Hmiss [] "dosage-calculator-cache-v1.2" _
                           [(CACHE_NAME, [])] Scenario.old_page
                           eq_refl Hold eq_refl eq_refl))
             eq_refl (Some Scenario.not_found) eq_refl eq_refl).
Defined.

(** ** install *)

Section Install.

Variable host : Host.

(** [attempt] is how [cache.add] settles. *)
Lemma cache_add_attempt (u : string) (w : World) :
  fst (cache_add host CACHE_NAME (new_Request_reload u) w) =
  match attempt host u with
  | Fulfilled _ => Fulfilled tt
  | Rejected e => Rejected e
  end.
Proof.
  unfold cache_add, attempt. run_chain. simpl.
  destruct (network host (new_Request_reload u)) as [[r|]|e]; simpl;
    try reflexivity.
  destruct (ok r); simpl; [|reflexivity].
  destruct (put_fault host CACHE_NAME (new_Request_reload u) r);
    reflexivity.
Qed.

(** One item of the pre-cache list: the promise with its catch is
    fulfilled, whatever the attempt did. *)
Lemma precache_item (u : string) (w : World) :
  exists w1,
    catch_ (cache_add host CACHE_NAME (new_Request_reload u))
      (fun err =>
         do_ (console_warn
                [String.append "[ServiceWorker] Failed to cache "
                   (String.append u ":"); err])) w = (Fulfilled tt, w1)
    /\ stores w1 = precached host [u] (stores w)
    /\ (forall e, attempt host u = Rejected e ->
          console w1 = console w ++ [failure_line u e])
    /\ (forall l, In l (console w) -> In l (console w1))
    /\ fetched (calls w1) = fetched (calls w) ++ [new_Request_reload u]
    /\ unhandled w1 = unhandled w.
Proof.
  unfold cache_add, precached, attempt, failure_line. run_chain.
  unfold console_warn. simpl.
  destruct (network host (new_Request_reload u)) as [[r|]|e]; simpl.
  - destruct (ok r); simpl.
    + destruct (put_fault host CACHE_NAME (new_Request_reload u) r) as [e|];
        simpl; eexists; (split; [reflexivity|]); simpl;
        rewrite ?fetched_app; simpl; rewrite ?app_nil_r;
        repeat split; auto; try discriminate; try congruence.
      intros l Hl. apply in_or_app. auto.
    + eexists. split; [reflexivity|]. simpl. rewrite fetched_app. simpl.
      repeat split; auto; try congruence.
      intros l Hl. apply in_or_app. auto.
  - eexists. split; [reflexivity|]. simpl. rewrite fetched_app. simpl.
    repeat split; auto; try congruence.
    intros l Hl. apply in_or_app. auto.
  - eexists. split; [reflexivity|]. simpl. rewrite fetched_app. simpl.
    repeat split; auto; try congruence.
    intros l Hl. apply in_or_app. auto.
Qed.

(** The whole list under [Promise.all]: fulfilled with one value for each
    url, after an attempt for each url. *)
Lemma precache_all (urls : list string) : forall w,
  exists w',
    Promise_all
      (map (fun urlToCache =>
              catch_ (cache_add host CACHE_NAME (new_Request_reload urlToCache))
                (fun err =>
                   do_ (console_warn
                          [String.append "[ServiceWorker] Failed to cache "
                             (String.append urlToCache ":"); err])))
         urls) w = (Fulfilled (map (fun _ => tt) urls), w')
    /\ stores w' = precached host urls (stores w)
    /\ (forall u e, In u urls -> attempt host u = Rejected e ->
          In (failure_line u e) (console w'))
    /\ (forall l, In l (console w) -> In l (console w'))
    /\ fetched (calls w') = fetched (calls w) ++ map new_Request_reload urls
    /\ unhandled w' = unhandled w.
Proof.
  induction urls as [|u urls IH]; intros w.
  - exists w. simpl. rewrite app_nil_r. repeat split; auto.
    intros u e [].
  - cbn [map Promise_all].
    destruct (precache_item u w)
      as (w1 & Hrun & Hst & Hwarn & Hkeep & Hcalls & Hun).
    rewrite Hrun.
    destruct (IH w1) as (w' & Hrun' & Hst' & Hwarn' & Hkeep' & Hcalls' & Hun').
    rewrite Hrun'. exists w'. split; [reflexivity|].
    split; [rewrite Hst', Hst; reflexivity|].
    split; [|split; [auto|split; [|congruence]]].
    + intros u' e [Hu|Hu] Hfail.
      * subst u'. apply Hkeep'. rewrite (Hwarn e Hfail).
        apply in_or_app. right. left. reflexivity.
      * eauto.
    + rewrite Hcalls', Hcalls, <- app_assoc. reflexivity.
Qed.

Lemma precached_has (urls : list string) : forall S name,
  storage_has (precached host urls S) name = storage_has S name.
Proof.
  unfold precached.
  induction urls as [|u urls IH]; intros S name; simpl; [reflexivity|].
  rewrite IH. destruct (attempt host u); [apply storage_put_has | reflexivity].
Qed.

(** An item whose attempt failed: its entry is the one from before. *)
Lemma precached_entry_failed (urls : list string) (u : string) (e : JsError) :
  attempt host u = Rejected e ->
  forall S, storage_has S CACHE_NAME = true ->
    store_entry (precached host urls S) CACHE_NAME u = store_entry S CACHE_NAME u.
Proof.
  intros Hfail. unfold precached.
  induction urls as [|u' urls IH]; intros S Hhas; simpl; [reflexivity|].
  destruct (attempt host u') as [r|e'] eqn:Hu'.
  - rewrite IH by (rewrite storage_put_has; exact Hhas).
    rewrite store_entry_put by exact Hhas.
    destruct (String.eqb u' u) eqn:E; [|reflexivity].
    apply String.eqb_eq in E. congruence.
  - apply IH. exact Hhas.
Qed.

(** An item whose attempt succeeded: its entry is the response fetched. *)
Lemma precached_entry_stored (urls : list string) (u : string) (r : Response) :
  attempt host u = Fulfilled r ->
  In u urls ->
  forall S, storage_has S CACHE_NAME = true ->
    store_entry (precached host urls S) CACHE_NAME u = Some r.
Proof.
  intros Hok. unfold precached.
  induction urls as [|u' urls IH]; intros Hin S Hhas; simpl; [destruct Hin|].
  destruct (in_dec string_dec u urls) as [Hlater|Hlast].
  - apply IH; [exact Hlater|].
    destruct (attempt host u'); [rewrite storage_put_has|]; exact Hhas.
  - destruct Hin as [Hin|Hin]; [subst u'|contradiction].
    rewrite Hok. clear IH.
    assert (Hput : store_entry (storage_put S CACHE_NAME u r) CACHE_NAME u
                   = Some r).
    { rewrite store_entry_put by exact Hhas.
      rewrite String.eqb_refl. reflexivity. }
    assert (Hhas' : storage_has (storage_put S CACHE_NAME u r) CACHE_NAME
                    = true) by (rewrite storage_put_has; exact Hhas).
    revert Hput Hhas'. generalize (storage_put S CACHE_NAME u r).
    induction urls as [|v urls IH]; intros T Hput Hhas'; simpl; [exact Hput|].
    assert (Hv : v <> u) by (intros ->; apply Hlast; left; reflexivity).
    assert (Hrest : ~ In u urls) by (intros H; apply Hlast; right; exact H).
    destruct (attempt host v) as [rv|ev].
    + apply IH; [exact Hrest| |rewrite storage_put_has; exact Hhas'].
      rewrite store_entry_put by exact Hhas'.
      apply String.eqb_neq in Hv. rewrite Hv. exact Hput.
    + apply IH; assumption.
Qed.

End Install.

(** The install when the store does not open: the outer catch logs the
    error and the promise is fulfilled. *)
Lemma install_refused (host : Host) (urls : list string) (w : World)
    (e : JsError) :
  open_fault host CACHE_NAME = Some e ->
  install_with host urls w =
  (Fulfilled None,
   with_call CallSkipWaiting
     (console_error ["[ServiceWorker] Failed to cache during install:"; e]
        (with_call (CallCachesOpen CACHE_NAME)
           (console_log ["[ServiceWorker] Install"] w)))).
Proof.
  intros Hopen. unfold install_with.
  erewrite catch_rejected.
  2:{ apply then_rejected. unfold caches_open. rewrite Hopen. reflexivity. }
  reflexivity.
Qed.

(** The install when the store opens. *)
Lemma install_opened (host : Host) (urls : list string) (w : World) :
  open_fault host CACHE_NAME = None ->
  exists w',
    install_with host urls w =
      (Fulfilled (Some (map (fun _ => tt) urls)),
       with_call CallSkipWaiting w')
    /\ stores w' = precached host urls (storage_open (stores w) CACHE_NAME)
    /\ (forall u e, In u urls -> attempt host u = Rejected e ->
          In (failure_line u e) (console w'))
    /\ fetched (calls w') = fetched (calls w) ++ map new_Request_reload urls
    /\ unhandled w' = unhandled w.
Proof.
  intros Hopen. unfold install_with.
  set (w0 := console_log ["[ServiceWorker] Install"] w).
  pose (w1 := with_stores (storage_open (stores w0) CACHE_NAME)
                (with_call (CallCachesOpen CACHE_NAME) w0)).
  pose (w2 := console_log ["[ServiceWorker] Caching app shell"] w1).
  destruct (precache_all host urls w2)
    as (w' & Hrun & Hst & Hwarn & _ & Hcalls & Hun).
  exists w'. erewrite catch_fulfilled.
  2:{ erewrite then_fulfilled with (w1 := w1)
        by (unfold caches_open; rewrite Hopen; reflexivity).
      erewrite then_fulfilled with (w1 := w2) by reflexivity.
      unfold defined. erewrite then_fulfilled by exact Hrun.
      reflexivity. }
  split; [reflexivity|]. split; [exact Hst|]. split; [exact Hwarn|].
  split; [|exact Hun].
  rewrite Hcalls. unfold w2, w1, w0. simpl. rewrite fetched_app. simpl.
  rewrite app_nil_r. reflexivity.
Qed.

(** C8, as the handler has it. For every pre-cache list the promise of the
    install handler is fulfilled and leaves no rejection unhandled.  When
    the store opens, it is fulfilled with the result of [Promise.all] over
    one promise for each url of the list, after each of them was fetched;
    an item whose fetch and store succeeded is in the store [CACHE_NAME]
    with the response fetched; an item whose fetch or store failed is
    logged as a warning, and its entry in the store is the one from before
    the install: none when there was none. *)
Theorem install_settles_after_every_attempt
    (host : Host) (urls : list string) (w : World) :
  (exists v, fst (install_with host urls w) = Fulfilled v)
  /\ unhandled (snd (install_with host urls w)) = unhandled w
  /\ (open_fault host CACHE_NAME = None ->
      fst (install_with host urls w) =
        Fulfilled (Some (map (fun _ => tt) urls))
      /\ fetched (calls (snd (install_with host urls w))) =
         fetched (calls w) ++ map new_Request_reload urls
      /\ forall u, In u urls ->
           (forall r, attempt host u = Fulfilled r ->
              store_entry (stores (snd (install_with host urls w)))
                CACHE_NAME u = Some r)
           /\ (forall e, attempt host u = Rejected e ->
                 In (failure_line u e)
                    (console (snd (install_with host urls w)))
                 /\ store_entry (stores (snd (install_with host urls w)))
                      CACHE_NAME u = store_entry (stores w) CACHE_NAME u)).
Proof.
  destruct (open_fault host CACHE_NAME) as [e|] eqn:Hopen.
  - rewrite (install_refused host urls w Hopen). cbn [fst snd].
    split; [eexists; reflexivity|]. split; [reflexivity | discriminate].
  - destruct (install_opened host urls w Hopen)
      as (w' & Hrun & Hst & Hwarn & Hcalls & Hun).
    rewrite Hrun. cbn [fst snd].
    split; [eexists; reflexivity|]. split; [exact Hun|]. intros _.
    split; [reflexivity|]. split.
    { unfold with_call. cbn [calls]. rewrite fetched_app, Hcalls. simpl.
      apply app_nil_r. }
    intros u Hu. unfold with_call. cbn [stores console]. rewrite Hst. split.
    + intros r Hok. apply precached_entry_stored; auto.
      apply storage_open_has.
    + intros e Hfail. split; [eauto|].
      rewrite (@precached_entry_failed host urls u e Hfail)
        by apply storage_open_has.
      apply storage_open_entry.
Qed.

Lemma install_settles_after_every_attempt_witness :
  fst (install Scenario.root_only Scenario.fresh) = Fulfilled (Some [tt; tt])
  /\ store_entry (stores (snd (install Scenario.root_only Scenario.fresh)))
       CACHE_NAME "./" = Some Scenario.page
  /\ In (failure_line "./index.html" "TypeError: Failed to fetch")
        (console (snd (install Scenario.root_only Scenario.fresh)))
  /\ store_entry (stores (snd (install Scenario.root_only Scenario.fresh)))
       CACHE_NAME "./index.html" = None.
Proof.
  destruct (@install_settles_after_every_attempt
              Scenario.root_only urlsToCache Scenario.fresh)
    as (_ & _ & H).
  destruct (H eq_refl) as (Hdone & _ & Hitems).
  split; [exact Hdone|].
  destruct (Hitems "./" (or_introl eq_refl)) as [Hroot _].
  destruct (Hitems "./index.html" (or_intror (or_introl eq_refl)))
    as [_ Hindex].
  split; [exact (Hroot Scenario.page eq_refl)|].
  exact (Hindex "TypeError: Failed to fetch" eq_refl).
Defined.

(** C8 as it is stated fails where it says that an item that failed is
    absent: on a store [CACHE_NAME] that holds [./] from before, with the
    network down, the attempt for [./] fails, the install is fulfilled
    all the same, and [./] is still in the store. *)
Lemma install_failed_item_still_present :
  In "./" urlsToCache
  /\ attempt Scenario.offline "./" = Rejected "TypeError: Failed to fetch"
  /\ fst (install Scenario.offline Scenario.visited) =
     Fulfilled (Some [tt; tt])
  /\ store_entry (stores (snd (install Scenario.offline Scenario.visited)))
       CACHE_NAME "./" = Some Scenario.old_page.
Proof.
  split; [left; reflexivity|]. vm_compute. auto.
Qed.

(** ** The cache writes of the fetch handler *)

(** The promise given to [event.respondWith] is never rejected. *)
Lemma fetch_handler_fulfils (host : Host) (rq : Request) (w : World) :
  fst (fetch_handler host rq w) = None
  \/ exists response, fst (fetch_handler host rq w) = Some (Fulfilled response).
Proof.
  unfold fetch_handler.
  destruct (String.eqb (method rq) "GET"); simpl; [right | left; reflexivity].
  destruct (String.eqb (mode rq) "navigate"); run_chain; simpl.
  - destruct (network host rq) as [response|e]; simpl.
    + destruct (navigate_invalid response) eqn:Hinv; simpl.
      * destruct (storage_match (stores w) rq); simpl; eexists; reflexivity.
      * destruct response as [r|]; simpl; [|eexists; reflexivity].
        destruct (open_fault host CACHE_NAME); simpl;
          [eexists; reflexivity|].
        destruct (put_fault host CACHE_NAME rq (clone r)); simpl;
          eexists; reflexivity.
    + destruct (storage_match (stores w) rq); simpl; eexists; reflexivity.
  - destruct (storage_match (stores w) rq); simpl; [eexists; reflexivity|].
    destruct (network host rq) as [response|e]; simpl;
      [|eexists; reflexivity].
    destruct (asset_invalid response) eqn:Hinv; simpl;
      [eexists; reflexivity|].
    destruct response as [r|]; simpl; [|eexists; reflexivity].
    destruct (open_fault host CACHE_NAME); simpl; [eexists; reflexivity|].
    destruct (put_fault host CACHE_NAME rq (clone r)); simpl;
      eexists; reflexivity.
Qed.

(** A rejection is left unhandled by the fetch handler only where the
    storage refuses a write. *)
Lemma fetch_handler_unhandled (host : Host) (rq : Request) (w : World) :
  open_fault host CACHE_NAME = None ->
  (forall r, put_fault host CACHE_NAME rq r = None) ->
  unhandled (snd (fetch_handler host rq w)) = unhandled w.
Proof.
  intros Hopen Hput. unfold fetch_handler.
  destruct (String.eqb (method rq) "GET"); simpl; [|reflexivity].
  destruct (String.eqb (mode rq) "navigate"); run_chain; simpl.
  - destruct (network host rq) as [response|e]; simpl.
    + destruct (navigate_invalid response); simpl.
      * destruct (storage_match (stores w) rq); reflexivity.
      * destruct response as [r|]; simpl; [|reflexivity].
        rewrite Hopen. simpl. rewrite Hput. reflexivity.
    + destruct (storage_match (stores w) rq); reflexivity.
  - destruct (storage_match (stores w) rq); simpl; [reflexivity|].
    destruct (network host rq) as [response|e]; simpl; [|reflexivity].
    destruct (asset_invalid response); simpl; [reflexivity|].
    destruct response as [r|]; simpl; [|reflexivity].
    rewrite Hopen. simpl. rewrite Hput. reflexivity.
Qed.

(** C1, on the code. The write that the navigation branch starts and drops
    has no catch: when the storage refuses the put, the page is answered
    with the response of the network, and the rejection of the put is left
    unhandled. *)
Lemma navigate_write_rejection_unhandled :
  fetch_handler Scenario.full_disk Scenario.navigation Scenario.fresh =
  (Some (Fulfilled (Some Scenario.page)),
   mkWorld
     [(CACHE_NAME, [])]
     [(Log, ["[ServiceWorker] Caching new response (navigate):";
             "https://example.org/app/"])]
     [CallFetch Scenario.navigation;
      CallCachesOpen CACHE_NAME;
      CallCachePut CACHE_NAME Scenario.navigation Scenario.page]
     ["QuotaExceededError"]).
Proof. reflexivity. Qed.

(** The same on the asset branch, after a miss. *)
Lemma asset_write_rejection_unhandled :
  unhandled
    (snd (fetch_handler Scenario.full_disk Scenario.script Scenario.fresh)) =
  ["QuotaExceededError"].
Proof. reflexivity. Qed.

(** ** Further properties of the handlers *)

(** *** The storage under a write *)

Lemma storage_put_absent (S : CacheStorage) (n u : string) (r : Response) :
  storage_has S n = false -> storage_put S n u r = S.
Proof.
  unfold storage_has, storage_put.
  induction S as [|[k c] S IH]; simpl; [reflexivity|].
  intros H. apply orb_false_iff in H. destruct H as [Hk HS].
  rewrite Hk, (IH HS). reflexivity.
Qed.

Lemma storage_put_app (S T : CacheStorage) (n u : string) (r : Response) :
  storage_put (S ++ T) n u r = storage_put S n u r ++ storage_put T n u r.
Proof. unfold storage_put. apply map_app. Qed.

Lemma storage_match_open (S : CacheStorage) (n : string) (rq : Request) :
  storage_match (storage_open S n) rq = storage_match S rq.
Proof.
  unfold storage_open. destruct (storage_has S n); [reflexivity|].
  rewrite storage_match_app. simpl. unfold cache_match. simpl.
  destruct (storage_match S rq); [reflexivity|].
  destruct (String.eqb (method rq) "GET"); reflexivity.
Qed.

(** A put of a GET request that matched nowhere makes it match. *)
Lemma storage_match_put_miss (S : CacheStorage) (n : string) (rq : Request)
    (r : Response) :
  method rq = "GET" ->
  storage_has S n = true ->
  storage_match S rq = None ->
  storage_match (storage_put S n (url rq) r) rq = Some r.
Proof.
  intros Hmethod. unfold storage_has, storage_put.
  induction S as [|[k c] S IH]; simpl; [discriminate|].
  intros Hhas Hmiss.
  destruct (cache_match c rq) eqn:Hc; [discriminate|].
  destruct (String.eqb k n); simpl.
  - unfold cache_match. rewrite Hmethod. simpl.
    rewrite cache_lookup_insert, String.eqb_refl. reflexivity.
  - rewrite Hc. apply IH; assumption.
Qed.

(** A put leaves every entry but its own as it was. *)
Lemma store_entry_put_other (S : CacheStorage) (n n' u u' : string)
    (r : Response) :
  n' <> n \/ u' <> u ->
  store_entry (storage_put S n u r) n' u' = store_entry S n' u'.
Proof.
  intros Hother. unfold store_entry. rewrite storage_find_put.
  destruct (String.eqb n' n) eqn:En; [|reflexivity].
  apply String.eqb_eq in En. subst n'.
  destruct Hother as [H|H]; [congruence|].
  destruct (storage_find S n) as [c|]; simpl; [|reflexivity].
  rewrite cache_lookup_insert.
  destruct (String.eqb u u') eqn:Eu; [|reflexivity].
  apply String.eqb_eq in Eu. congruence.
Qed.

Lemma storage_open_keeps (S : CacheStorage) (n n' : string) :
  storage_has S n' = true -> storage_has (storage_open S n) n' = true.
Proof.
  unfold storage_open. intros H. destruct (storage_has S n); [exact H|].
  unfold storage_has in *. rewrite existsb_app, H. reflexivity.
Qed.

(** *** The storage that a fetch event leaves *)

Lemma fetch_handler_stores (host : Host) (rq : Request) (w : World) :
  stores (snd (fetch_handler host rq w)) = stores w
  \/ stores (snd (fetch_handler host rq w)) =
     storage_open (stores w) CACHE_NAME
  \/ exists r,
       stores (snd (fetch_handler host rq w)) =
       storage_put (storage_open (stores w) CACHE_NAME) CACHE_NAME
         (url rq) r.
Proof.
  unfold fetch_handler.
  destruct (String.eqb (method rq) "GET"); simpl; [|left; reflexivity].
  destruct (String.eqb (mode rq) "navigate"); run_chain; simpl.
  - destruct (network host rq) as [response|e]; simpl.
    + destruct (navigate_invalid response); simpl.
      * destruct (storage_match (stores w) rq); left; reflexivity.
      * destruct response as [r|]; simpl; [|left; reflexivity].
        destruct (open_fault host CACHE_NAME); simpl; [left; reflexivity|].
        destruct (put_fault host CACHE_NAME rq (clone r)); simpl;
          [right; left; reflexivity | right; right; eexists; reflexivity].
    + destruct (storage_match (stores w) rq); left; reflexivity.
  - destruct (storage_match (stores w) rq); simpl; [left; reflexivity|].
    destruct (network host rq) as [response|e]; simpl; [|left; reflexivity].
    destruct (asset_invalid response); simpl; [left; reflexivity|].
    destruct response as [r|]; simpl; [|left; reflexivity].
    destruct (open_fault host CACHE_NAME); simpl; [left; reflexivity|].
    destruct (put_fault host CACHE_NAME rq (clone r)); simpl;
      [right; left; reflexivity | right; right; eexists; reflexivity].
Qed.

(** How the asset branch runs on a miss that the network answers with
    status 200, when the storage accepts the write. *)
Lemma asset_miss_200_run (host : Host) (rq : Request) (r : Response)
    (w : World) :
  method rq = "GET" ->
  mode rq <> "navigate" ->
  storage_match (stores w) rq = None ->
  network host rq = Fulfilled (Some r) ->
  status r = 200 ->
  open_fault host CACHE_NAME = None ->
  put_fault host CACHE_NAME rq (clone r) = None ->
  exists w',
    fetch_handler host rq w = (Some (Fulfilled (Some r)), w')
    /\ stores w' =
       storage_put (storage_open (stores w) CACHE_NAME) CACHE_NAME
         (url rq) (clone r)
    /\ calls w' =
       calls w ++ [CallCachesMatch rq; CallFetch rq;
                   CallCachesOpen CACHE_NAME;
                   CallCachePut CACHE_NAME rq (clone r)]
    /\ unhandled w' = unhandled w.
Proof.
  intros Hmethod Hmode Hmiss Hnet Hstatus Hopen Hput.
  unfold fetch_handler. rewrite Hmethod.
  apply String.eqb_neq in Hmode. rewrite Hmode. simpl.
  run_chain. rewrite Hmiss. simpl. rewrite Hnet. simpl.
  rewrite Hstatus. simpl. rewrite Hopen. simpl. rewrite Hput. simpl.
  eexists. split; [reflexivity|]. simpl.
  rewrite <- !app_assoc. auto.
Qed.

(** *** fetch: the paths beside the claims *)

(** X1. A GET navigation request that the network answers with a response
    that is missing, not of status 200 or not of type [basic] is answered
    with the entry that matches it in the storage when there is one, and
    with the response of the network as it is when there is none.  Nothing
    is written: the storage is as it was, the calls are the fetch and the
    lookup, and no rejection is left unhandled. *)
Theorem navigate_invalid_response_falls_back
    (host : Host) (rq : Request) (response : option Response) (w : World) :
  method rq = "GET" ->
  mode rq = "navigate" ->
  network host rq = Fulfilled response ->
  navigate_invalid response = true ->
  fst (fetch_handler host rq w) =
    Some (Fulfilled (match storage_match (stores w) rq with
                     | Some c => Some c
                     | None => response
                     end))
  /\ stores (snd (fetch_handler host rq w)) = stores w
  /\ calls (snd (fetch_handler host rq w)) =
     calls w ++ [CallFetch rq; CallCachesMatch rq]
  /\ unhandled (snd (fetch_handler host rq w)) = unhandled w.
Proof.
  intros Hmethod Hmode Hnet Hinvalid.
  unfold fetch_handler. rewrite Hmethod, Hmode. simpl.
  run_chain. rewrite Hnet, Hinvalid. simpl.
  destruct (storage_match (stores w) rq); simpl;
    rewrite <- app_assoc; auto.
Qed.

Lemma navigate_invalid_response_falls_back_witness :
  fst (fetch_handler Scenario.cdn Scenario.navigation Scenario.fresh) =
    Some (Fulfilled (Some Scenario.cdn_script))
  /\ stores (snd (fetch_handler Scenario.cdn Scenario.navigation
                    Scenario.fresh)) = []
  /\ fst (fetch_handler Scenario.missing Scenario.navigation
            Scenario.upgraded) = Some (Fulfilled (Some Scenario.old_page)).
Proof.
  destruct (@navigate_invalid_response_falls_back
              Scenario.cdn Scenario.navigation (Some Scenario.cdn_script)
              Scenario.fresh eq_refl eq_refl eq_refl eq_refl)
    as (Hresp & Hstores & _).
  destruct (@navigate_invalid_response_falls_back
              Scenario.missing Scenario.navigation (Some Scenario.not_found)
              Scenario.upgraded eq_refl eq_refl eq_refl eq_refl)
    as (Hresp' & _).
  split; [exact Hresp|]. split; [exact Hstores | exact Hresp'].
Defined.

(** X2. A GET request that is not a navigation, that no entry matches and
    that the network answers with status 200 is answered with that
    response, of whatever type; when the storage accepts the write, the
    store [CACHE_NAME] then holds the clone under the url of the request
    and the request matches it. *)
Theorem asset_miss_200_responds_and_caches
    (host : Host) (rq : Request) (r : Response) (w : World) :
  method rq = "GET" ->
  mode rq <> "navigate" ->
  storage_match (stores w) rq = None ->
  network host rq = Fulfilled (Some r) ->
  status r = 200 ->
  fst (fetch_handler host rq w) = Some (Fulfilled (Some r))
  /\ (open_fault host CACHE_NAME = None ->
      put_fault host CACHE_NAME rq (clone r) = None ->
      store_entry (stores (snd (fetch_handler host rq w)))
        CACHE_NAME (url rq) = Some (clone r)
      /\ storage_match (stores (snd (fetch_handler host rq w))) rq =
         Some (clone r)).
Proof.
  intros Hmethod Hmode Hmiss Hnet Hstatus. split.
  - unfold fetch_handler. rewrite Hmethod.
    apply String.eqb_neq in Hmode. rewrite Hmode. simpl.
    run_chain. rewrite Hmiss. simpl. rewrite Hnet. simpl.
    rewrite Hstatus. simpl.
    destruct (open_fault host CACHE_NAME); simpl; [reflexivity|].
    destruct (put_fault host CACHE_NAME rq (clone r)); reflexivity.
  - intros Hopen Hput.
    destruct (@asset_miss_200_run host rq r w Hmethod Hmode Hmiss Hnet Hstatus
                Hopen Hput) as (w' & Hrun & Hstores & _).
    rewrite Hrun. cbn [snd]. rewrite Hstores. split.
    + rewrite store_entry_put by apply storage_open_has.
      rewrite String.eqb_refl. reflexivity.
    + apply storage_match_put_miss;
        [exact Hmethod | apply storage_open_has|].
      rewrite storage_match_open. exact Hmiss.
Qed.

Lemma asset_miss_200_responds_and_caches_witness :
  fst (fetch_handler Scenario.cdn Scenario.script Scenario.fresh) =
    Some (Fulfilled (Some Scenario.cdn_script))
  /\ store_entry
       (stores (snd (fetch_handler Scenario.cdn Scenario.script
                       Scenario.fresh)))
       CACHE_NAME "https://example.org/app/calc.js" =
     Some Scenario.cdn_script.
Proof.
  destruct (@asset_miss_200_responds_and_caches
              Scenario.cdn Scenario.script Scenario.cdn_script
              Scenario.fresh eq_refl)
    as [Hresp Hstore].
  - simpl. discriminate.
  - reflexivity.
  - reflexivity.
  - reflexivity.
  - split; [exact Hresp | exact (proj1 (Hstore eq_refl eq_refl))].
Defined.

(** X3. A GET request that is not a navigation, that no entry matches and
    whose fetch is rejected is answered with no response; the failure is
    logged as a warning with the url and the error, the storage is as it
    was and no rejection is left unhandled. *)
Theorem asset_miss_offline_resolves_empty
    (host : Host) (rq : Request) (e : JsError) (w : World) :
  method rq = "GET" ->
  mode rq <> "navigate" ->
  storage_match (stores w) rq = None ->
  network host rq = Rejected e ->
  fetch_handler host rq w =
  (Some (Fulfilled None),
   mkWorld (stores w)
     (console w ++
        [(Warn, ["[ServiceWorker] Fetch failed for asset:"; url rq; e])])
     (calls w ++ [CallCachesMatch rq; CallFetch rq])
     (unhandled w)).
Proof.
  intros Hmethod Hmode Hmiss Hnet.
  unfold fetch_handler. rewrite Hmethod.
  apply String.eqb_neq in Hmode. rewrite Hmode. simpl.
  run_chain. rewrite Hmiss. simpl. rewrite Hnet. simpl.
  unfold console_warn, with_line, with_call. simpl.
  rewrite <- app_assoc. reflexivity.
Qed.

Lemma asset_miss_offline_resolves_empty_witness :
  fst (fetch_handler Scenario.offline Scenario.script Scenario.fresh) =
    Some (Fulfilled None)
  /\ console (snd (fetch_handler Scenario.offline Scenario.script
                     Scenario.fresh)) =
     [(Warn, ["[ServiceWorker] Fetch failed for asset:";
              "https://example.org/app/calc.js";
              "TypeError: Failed to fetch"])].
Proof.
  rewrite (@asset_miss_offline_resolves_empty
             Scenario.offline Scenario.script "TypeError: Failed to fetch"
             Scenario.fresh eq_refl).
  - split; reflexivity.
  - simpl. discriminate.
  - reflexivity.
  - reflexivity.
Defined.

(** X4. After a miss that the network answered with status 200 and that
    the storage accepted, the same request handled again is answered from
    the cache with the response stored, whatever the network would then
    answer, and is not fetched again: of the two events, one fetch. *)
Theorem asset_cached_on_miss_then_served_from_cache
    (host host' : Host) (rq : Request) (r : Response) (w : World) :
  method rq = "GET" ->
  mode rq <> "navigate" ->
  storage_match (stores w) rq = None ->
  network host rq = Fulfilled (Some r) ->
  status r = 200 ->
  open_fault host CACHE_NAME = None ->
  put_fault host CACHE_NAME rq (clone r) = None ->
  fst (fetch_handler host' rq (snd (fetch_handler host rq w))) =
    Some (Fulfilled (Some (clone r)))
  /\ fetched (calls (snd (fetch_handler host' rq
                            (snd (fetch_handler host rq w))))) =
     fetched (calls w) ++ [rq].
Proof.
  intros Hmethod Hmode Hmiss Hnet Hstatus Hopen Hput.
  destruct (@asset_miss_200_run host rq r w Hmethod Hmode Hmiss Hnet Hstatus
              Hopen Hput) as (w' & Hrun & Hstores & Hcalls & _).
  rewrite Hrun. cbn [snd].
  assert (Hhit : storage_match (stores w') rq = Some (clone r)).
  { rewrite Hstores.
    apply storage_match_put_miss; [exact Hmethod | apply storage_open_has|].
    rewrite storage_match_open. exact Hmiss. }
  unfold fetch_handler. rewrite Hmethod.
  apply String.eqb_neq in Hmode. rewrite Hmode. simpl.
  run_chain. rewrite Hhit. simpl. split; [reflexivity|].
  rewrite Hcalls, !fetched_app. simpl. rewrite app_nil_r. reflexivity.
Qed.

Lemma asset_cached_on_miss_then_served_from_cache_witness :
  fst (fetch_handler Scenario.offline Scenario.script
         (snd (fetch_handler Scenario.cdn Scenario.script Scenario.fresh))) =
    Some (Fulfilled (Some Scenario.cdn_script))
  /\ fetched
       (calls (snd (fetch_handler Scenario.offline Scenario.script
                      (snd (fetch_handler Scenario.cdn Scenario.script
                              Scenario.fresh))))) = [Scenario.script].
Proof.
  apply (@asset_cached_on_miss_then_served_from_cache
           Scenario.cdn Scenario.offline Scenario.script Scenario.cdn_script
           Scenario.fresh eq_refl);
    try reflexivity.
  simpl. discriminate.
Defined.

(** X5. Whatever the request and the host, a fetch event changes at most
    the entry of the store [CACHE_NAME] for the url of the request: every
    other entry of every store is as it was, and every store that existed
    still exists. *)
Theorem fetch_changes_only_its_entry
    (host : Host) (rq : Request) (w : World) :
  (forall name u,
     name <> CACHE_NAME \/ u <> url rq ->
     store_entry (stores (snd (fetch_handler host rq w))) name u =
     store_entry (stores w) name u)
  /\ (forall name,
        storage_has (stores w) name = true ->
        storage_has (stores (snd (fetch_handler host rq w))) name = true).
Proof.
  destruct (fetch_handler_stores host rq w) as [H|[H|[r H]]]; rewrite H.
  - split; auto.
  - split.
    + intros name u _. apply storage_open_entry.
    + intros name. apply storage_open_keeps.
  - split.
    + intros name u Hother.
      rewrite store_entry_put_other by exact Hother.
      apply storage_open_entry.
    + intros name Hhas. rewrite storage_put_has.
      apply storage_open_keeps. exact Hhas.
Qed.

Lemma fetch_changes_only_its_entry_witness :
  store_entry
    (stores (snd (fetch_handler Scenario.online Scenario.navigation
                    Scenario.upgraded)))
    "dosage-calculator-cache-v1.2" "https://example.org/app/" =
  Some Scenario.old_page
  /\ storage_has
       (stores (snd (fetch_handler Scenario.online Scenario.navigation
                       Scenario.upgraded)))
       "dosage-calculator-cache-v1.2" = true.
Proof.
  destruct (fetch_changes_only_its_entry
              Scenario.online Scenario.navigation Scenario.upgraded)
    as [Hentry Hhas].
  split.
  - rewrite Hentry; [reflexivity|]. left. vm_compute. discriminate.
  - apply Hhas. reflexivity.
Defined.

(** X6. The handler responds to the event exactly when the method of the
    request is GET, and the promise it then responds with is fulfilled,
    never rejected, whatever the network and the storage do. *)
Theorem fetch_responds_iff_GET (host : Host) (rq : Request) (w : World) :
  (fst (fetch_handler host rq w) = None <-> method rq <> "GET")
  /\ (method rq = "GET" ->
      exists response,
        fst (fetch_handler host rq w) = Some (Fulfilled response)).
Proof.
  pose proof (fetch_handler_fulfils host rq w) as Hsettled.
  assert (Hget : method rq = "GET" -> fst (fetch_handler host rq w) <> None).
  { intros Hmethod. unfold fetch_handler. rewrite Hmethod. simpl.
    destruct (String.eqb (mode rq) "navigate").
    - destruct (respond_navigate host rq w). discriminate.
    - destruct (respond_asset host rq w). discriminate. }
  split; [split|].
  - intros Hnone Hmethod. exact (Hget Hmethod Hnone).
  - intros Hmethod. unfold fetch_handler.
    apply String.eqb_neq in Hmethod. rewrite Hmethod. reflexivity.
  - intros Hmethod. destruct Hsettled as [Hnone|Hsome]; [|exact Hsome].
    destruct (Hget Hmethod Hnone).
Qed.

Lemma fetch_responds_iff_GET_witness :
  exists response,
    fst (fetch_handler Scenario.full_disk Scenario.script Scenario.fresh) =
    Some (Fulfilled response).
Proof.
  apply fetch_responds_iff_GET. reflexivity.
Defined.

(** How the navigation branch runs when the network answers with status
    200 and type [basic] and the storage accepts the write. *)
Lemma navigate_online_run (host : Host) (rq : Request) (r : Response)
    (w : World) :
  method rq = "GET" ->
  mode rq = "navigate" ->
  network host rq = Fulfilled (Some r) ->
  status r = 200 ->
  type r = "basic" ->
  open_fault host CACHE_NAME = None ->
  put_fault host CACHE_NAME rq (clone r) = None ->
  exists w',
    fetch_handler host rq w = (Some (Fulfilled (Some r)), w')
    /\ stores w' =
       storage_put (storage_open (stores w) CACHE_NAME) CACHE_NAME
         (url rq) (clone r)
    /\ calls w' =
       calls w ++ [CallFetch rq; CallCachesOpen CACHE_NAME;
                   CallCachePut CACHE_NAME rq (clone r)]
    /\ unhandled w' = unhandled w.
Proof.
  intros Hmethod Hmode Hnet Hstatus Htype Hopen Hput.
  unfold fetch_handler. rewrite Hmethod, Hmode. simpl.
  run_chain. rewrite Hnet. unfold navigate_invalid.
  rewrite Hstatus, Htype. simpl. rewrite Hopen. simpl. rewrite Hput. simpl.
  eexists. split; [reflexivity|]. simpl. rewrite <- !app_assoc. auto.
Qed.

Lemma storage_open_app (S : CacheStorage) (n : string) :
  exists T, storage_open S n = S ++ T.
Proof.
  unfold storage_open. destruct (storage_has S n).
  - exists []. symmetry. apply app_nil_r.
  - eexists. reflexivity.
Qed.

(** X7. The write of the navigation branch goes to the store
    [CACHE_NAME] and does not replace what an older store holds: when a
    store of another name, created before the store [CACHE_NAME], has an
    entry for the request, then after a navigation answered and cached
    from the network, the same navigation with the network down is
    answered with the entry of the older store, not with the page just
    cached. *)
Theorem navigate_fresh_write_shadowed_by_older_store
    (host host' : Host) (rq : Request) (r old : Response) (e : JsError)
    (w : World) (before after : CacheStorage) (name : string) (c : Cache) :
  method rq = "GET" ->
  mode rq = "navigate" ->
  network host rq = Fulfilled (Some r) ->
  status r = 200 ->
  type r = "basic" ->
  open_fault host CACHE_NAME = None ->
  put_fault host CACHE_NAME rq (clone r) = None ->
  stores w = before ++ (name, c) :: after ->
  name <> CACHE_NAME ->
  storage_has before CACHE_NAME = false ->
  storage_match before rq = None ->
  cache_match c rq = Some old ->
  network host' rq = Rejected e ->
  store_entry (stores (snd (fetch_handler host rq w))) CACHE_NAME (url rq) =
    Some (clone r)
  /\ fst (fetch_handler host' rq (snd (fetch_handler host rq w))) =
     Some (Fulfilled (Some old)).
Proof.
  intros Hmethod Hmode Hnet Hstatus Htype Hopen Hput Hstores Hname Hbefore
    Hmiss Hold Hnet'.
  destruct (@navigate_online_run host rq r w Hmethod Hmode Hnet Hstatus
              Htype Hopen Hput) as (w' & Hrun & Hst & _).
  rewrite Hrun. cbn [snd]. split.
  - rewrite Hst, store_entry_put by apply storage_open_has.
    rewrite String.eqb_refl. reflexivity.
  - assert (Hmatch : storage_match (stores w') rq = Some old).
    { rewrite Hst. destruct (storage_open_app (stores w) CACHE_NAME) as [T HT].
      rewrite HT, Hstores, <- app_assoc, storage_put_app.
      rewrite storage_put_absent by exact Hbefore.
      rewrite storage_match_app, Hmiss. simpl.
      apply String.eqb_neq in Hname. rewrite Hname. simpl.
      rewrite Hold. reflexivity. }
    unfold fetch_handler. rewrite Hmethod, Hmode. simpl.
    run_chain. rewrite Hnet'. simpl. rewrite Hmatch. reflexivity.
Qed.

Lemma navigate_fresh_write_shadowed_by_older_store_witness :
  store_entry
    (stores (snd (fetch_handler Scenario.online Scenario.navigation
                    Scenario.upgraded)))
    CACHE_NAME "https://example.org/app/" = Some Scenario.page
  /\ fst (fetch_handler Scenario.offline Scenario.navigation
            (snd (fetch_handler Scenario.online Scenario.navigation
                    Scenario.upgraded))) =
     Some (Fulfilled (Some Scenario.old_page)).
Proof.
  apply (@navigate_fresh_write_shadowed_by_older_store
           Scenario.online Scenario.offline Scenario.navigation
           Scenario.page Scenario.old_page "TypeError: Failed to fetch"
           Scenario.upgraded [] [(CACHE_NAME, [])]
           "dosage-calculator-cache-v1.2"
           [("https://example.org/app/", Scenario.old_page);
            ("https://example.org/app/calc.js", Scenario.old_script)]);
    try reflexivity.
  vm_compute. discriminate.
Defined.

(** X8. An asset that is in the cache stays as it is: over any number of
    events for a GET request that is not a navigation and that an entry
    matches, whatever the network answers, nothing is fetched, the
    storage does not change, and the request handled once more is still
    answered with that entry. *)
Theorem cached_asset_never_refetched
    (events : list (Host * Request)) (host : Host) (rq : Request)
    (c : Response) (w : World) :
  method rq = "GET" ->
  mode rq <> "navigate" ->
  storage_match (stores w) rq = Some c ->
  Forall (fun ev => snd ev = rq) events ->
  stores (serve events w) = stores w
  /\ fetched (calls (serve events w)) = fetched (calls w)
  /\ fst (fetch_handler host rq (serve events w)) =
     Some (Fulfilled (Some c)).
Proof.
  intros Hmethod Hmode Hhit Hevents.
  assert (Hone : forall h w0,
            storage_match (stores w0) rq = Some c ->
            fetch_handler h rq w0 =
            (Some (Fulfilled (Some c)), with_call (CallCachesMatch rq) w0)).
  { intros h w0 Hhit0. unfold fetch_handler. rewrite Hmethod.
    apply String.eqb_neq in Hmode. rewrite Hmode. simpl.
    run_chain. rewrite Hhit0. reflexivity. }
  revert w Hhit.
  induction Hevents as [|[h rq'] events Hrq _ IH]; intros w Hhit.
  - simpl. rewrite (Hone host w Hhit). auto.
  - simpl in Hrq. subst rq'. cbn [serve]. rewrite (Hone h w Hhit). cbn [snd].
    destruct (IH (with_call (CallCachesMatch rq) w) Hhit)
      as (Hstores & Hfetched & Hanswer).
    rewrite Hstores, Hfetched, Hanswer. simpl.
    rewrite fetched_app. simpl. rewrite app_nil_r. auto.
Qed.

Lemma cached_asset_never_refetched_witness :
  fetched
    (calls (serve [(Scenario.online, Scenario.script);
                   (Scenario.missing, Scenario.script);
                   (Scenario.offline, Scenario.script)]
              Scenario.upgraded)) = []
  /\ fst (fetch_handler Scenario.online Scenario.script
            (serve [(Scenario.online, Scenario.script);
                    (Scenario.missing, Scenario.script);
                    (Scenario.offline, Scenario.script)]
               Scenario.upgraded)) =
     Some (Fulfilled (Some Scenario.old_script)).
Proof.
  destruct (@cached_asset_never_refetched
              [(Scenario.online, Scenario.script);
               (Scenario.missing, Scenario.script);
               (Scenario.offline, Scenario.script)]
              Scenario.online Scenario.script Scenario.old_script
              Scenario.upgraded eq_refl)
    as (_ & Hfetched & Hanswer).
  - simpl. discriminate.
  - reflexivity.
  - repeat constructor.
  - split; [exact Hfetched | exact Hanswer].
Defined.

(** *** activate: the calls, the current store, the old entries *)

(** The deletions of the activate handler with what they ask and log. *)
Lemma activate_sweep_trace (names : list string) : forall w,
  exists vs w',
    Promise_all
      (map (fun cacheName =>
              if indexOf [CACHE_NAME] cacheName =? -1
              then
                do_ (console_log
                       ["[ServiceWorker] Deleting old cache:"; cacheName]) ;;
                defined (caches_delete cacheName)
              else resolve None)
           names) w = (Fulfilled vs, w')
    /\ stores w' = swept names (stores w)
    /\ calls w' =
       calls w ++
       map CallCachesDelete
         (filter (fun n => negb (String.eqb CACHE_NAME n)) names)
    /\ console w' =
       console w ++
       map (fun n => (Log, ["[ServiceWorker] Deleting old cache:"; n]))
         (filter (fun n => negb (String.eqb CACHE_NAME n)) names).
Proof.
  set (cb := fun cacheName : string => _).
  induction names as [|n names IH]; intros w.
  - exists [], w. simpl. rewrite !app_nil_r. auto.
  - cbn [map Promise_all filter].
    destruct (cb n w) as [o w1] eqn:Hcb.
    destruct (IH w1) as (vs & w' & Hrun & Hst & Hcalls & Hlog). rewrite Hrun.
    unfold cb in Hcb. rewrite indexOf_whitelist in Hcb.
    unfold swept in *. cbn [fold_left].
    destruct (String.eqb CACHE_NAME n) eqn:E; cbn [negb] in *.
    + inversion Hcb; subst o w1. exists (None :: vs), w'. auto.
    + unfold then_, do_, defined, then_, caches_delete, resolve in Hcb.
      inversion Hcb; subst o w1.
      exists (Some (storage_has (stores w) n) :: vs), w'.
      rewrite Hst, Hcalls, Hlog. simpl. rewrite <- !app_assoc. auto.
Qed.

(** The activate handler as a whole. *)
Lemma activate_run (w : World) :
  exists vs,
    activate w =
    (Fulfilled vs,
     mkWorld
       (filter (fun e => String.eqb (fst e) CACHE_NAME) (stores w))
       (console w ++
        (Log, ["[ServiceWorker] Activate"]) ::
        map (fun n => (Log, ["[ServiceWorker] Deleting old cache:"; n]))
          (filter (fun n => negb (String.eqb CACHE_NAME n))
             (map fst (stores w))))
       (calls w ++
        CallCachesKeys ::
        CallClientsClaim ::
        map CallCachesDelete
          (filter (fun n => negb (String.eqb CACHE_NAME n))
             (map fst (stores w))))
       (unhandled w)).
Proof.
  unfold activate, caches_keys. unfold then_ at 1. unfold settled.
  match goal with
  | |- context [Promise_all (map ?f ?l) ?w1] =>
      destruct (activate_sweep_trace l w1)
        as (vs & w' & Hrun & Hst & Hcalls & Hlog);
      destruct (activate_sweep l w1) as (vs' & w'' & Hrun' & _ & Hun)
  end.
  rewrite Hrun in Hrun'. inversion Hrun'; subst vs' w''.
  rewrite Hrun. exists vs. f_equal.
  destruct w' as [S' L' C' U']. simpl in *. subst.
  unfold with_call. simpl. rewrite swept_keys, <- !app_assoc. reflexivity.
Qed.

(** X9. The activate handler lists the stores once, calls
    [clients.claim()], and then asks to delete each store whose name is
    not [CACHE_NAME], in the order listed, logging a line for each; it
    never asks to delete the store [CACHE_NAME], and leaves no rejection
    unhandled. *)
Theorem activate_deletes_exactly_the_old_stores (w : World) :
  calls (snd (activate w)) =
    calls w ++
    CallCachesKeys ::
    CallClientsClaim ::
    map CallCachesDelete
      (filter (fun n => negb (String.eqb CACHE_NAME n))
         (map fst (stores w)))
  /\ ~ In (CallCachesDelete CACHE_NAME)
         (map CallCachesDelete
            (filter (fun n => negb (String.eqb CACHE_NAME n))
               (map fst (stores w))))
  /\ console (snd (activate w)) =
     console w ++
     (Log, ["[ServiceWorker] Activate"]) ::
     map (fun n => (Log, ["[ServiceWorker] Deleting old cache:"; n]))
       (filter (fun n => negb (String.eqb CACHE_NAME n))
          (map fst (stores w)))
  /\ unhandled (snd (activate w)) = unhandled w.
Proof.
  destruct (activate_run w) as [vs Hrun]. rewrite Hrun.
  cbn [snd calls console unhandled].
  split; [reflexivity|]. split; [|split; reflexivity].
  intros Hin. apply in_map_iff in Hin. destruct Hin as (n & Hn & Hin).
  inversion Hn; subst n. apply filter_In in Hin. destruct Hin as [_ Hin].
  rewrite String.eqb_refl in Hin. discriminate.
Qed.

Lemma storage_find_current (S : CacheStorage) (n : string) :
  storage_find (filter (fun e => String.eqb (fst e) n) S) n =
  storage_find S n.
Proof.
  induction S as [|[k c] S IH]; simpl; [reflexivity|].
  destruct (String.eqb k n) eqn:E; simpl; [rewrite E; reflexivity | exact IH].
Qed.

(** X10. The activate handler keeps what the store [CACHE_NAME] holds, and
    a second activation changes nothing in the storage. *)
Theorem activate_keeps_current_entries (w : World) :
  (forall u,
     store_entry (stores (snd (activate w))) CACHE_NAME u =
     store_entry (stores w) CACHE_NAME u)
  /\ stores (snd (activate (snd (activate w)))) = stores (snd (activate w)).
Proof.
  destruct (activate_run w) as [vs Hrun].
  destruct (activate_run (snd (activate w))) as [vs' Hrun'].
  rewrite Hrun'. rewrite Hrun. cbn [snd stores]. split.
  - intros u. unfold store_entry. rewrite storage_find_current. reflexivity.
  - rewrite filter_filter. apply filter_ext. intros e.
    apply andb_diag.
Qed.

Lemma storage_match_current_miss (S : CacheStorage) (rq : Request) :
  (forall c, In (CACHE_NAME, c) S -> cache_match c rq = None) ->
  storage_match (filter (fun e => String.eqb (fst e) CACHE_NAME) S) rq = None.
Proof.
  induction S as [|[k c] S IH]; intros Hmiss; simpl; [reflexivity|].
  destruct (String.eqb k CACHE_NAME) eqn:E; simpl.
  - apply String.eqb_eq in E. subst k.
    rewrite (Hmiss c) by (left; reflexivity).
    apply IH. intros c' Hc'. apply Hmiss. right. exact Hc'.
  - apply IH. intros c' Hc'. apply Hmiss. right. exact Hc'.
Qed.

(** X11. What only the stores of other names held is gone with the
    activation: a GET request that no store named [CACHE_NAME] matches
    matches nothing after the activate handler has run, so a navigation
    for it with the network down is then answered with no response. *)
Theorem activate_drops_old_entries
    (host : Host) (rq : Request) (e : JsError) (w : World) :
  (forall c, In (CACHE_NAME, c) (stores w) -> cache_match c rq = None) ->
  method rq = "GET" ->
  mode rq = "navigate" ->
  network host rq = Rejected e ->
  storage_match (stores (snd (activate w))) rq = None
  /\ fst (fetch_handler host rq (snd (activate w))) = Some (Fulfilled None).
Proof.
  intros Hmiss Hmethod Hmode Hnet.
  destruct (activate_run w) as [vs Hrun]. rewrite Hrun. cbn [snd].
  assert (Hnone : storage_match
                    (filter (fun e0 => String.eqb (fst e0) CACHE_NAME)
                       (stores w)) rq = None)
    by (apply storage_match_current_miss; exact Hmiss).
  split; [exact Hnone|].
  unfold fetch_handler. rewrite Hmethod, Hmode. simpl.
  run_chain. rewrite Hnet. simpl. rewrite Hnone. reflexivity.
Qed.

Lemma activate_drops_old_entries_witness :
  fst (fetch_handler Scenario.offline Scenario.navigation
         Scenario.upgraded) = Some (Fulfilled (Some Scenario.old_page))
  /\ fst (fetch_handler Scenario.offline Scenario.navigation
            (snd (activate Scenario.upgraded))) = Some (Fulfilled None).
Proof.
  split; [reflexivity|].
  apply (@activate_drops_old_entries
           Scenario.offline Scenario.navigation "TypeError: Failed to fetch"
           Scenario.upgraded);
    try reflexivity.
  intros c [H|[H|[]]].
  - exfalso. revert H. vm_compute. discriminate.
  - inversion H. reflexivity.
Defined.

(** *** install: what it leaves alone, and the store that does not open *)

Lemma precached_entry_other (host : Host) (urls : list string)
    (name u : string) :
  name <> CACHE_NAME \/ ~ In u urls ->
  forall S,
    store_entry (precached host urls S) name u = store_entry S name u.
Proof.
  intros Hother. unfold precached.
  induction urls as [|u' urls IH]; intros S; simpl; [reflexivity|].
  assert (Hrest : name <> CACHE_NAME \/ ~ In u urls).
  { destruct Hother as [H|H]; [left; exact H|].
    right. intros Hin. apply H. right. exact Hin. }
  rewrite (IH Hrest). destruct (attempt host u'); [|reflexivity].
  apply store_entry_put_other.
  destruct Hother as [H|H]; [left; exact H|].
  right. intros ->. apply H. left. reflexivity.
Qed.

(** X12. The install handler writes the store [CACHE_NAME] under the urls
    of its list and nothing else: an entry of a store of another name, and
    an entry of the store [CACHE_NAME] for a url that is not in the list,
    is after the install what it was before; and every store that existed
    still exists. *)
Theorem install_changes_only_listed_entries
    (host : Host) (urls : list string) (w : World) :
  (forall name u,
     name <> CACHE_NAME \/ ~ In u urls ->
     store_entry (stores (snd (install_with host urls w))) name u =
     store_entry (stores w) name u)
  /\ (forall name,
        storage_has (stores w) name = true ->
        storage_has (stores (snd (install_with host urls w))) name = true).
Proof.
  destruct (open_fault host CACHE_NAME) as [e|] eqn:Hopen.
  - rewrite (install_refused host urls w Hopen). cbn [snd]. split; auto.
  - destruct (install_opened host urls w Hopen)
      as (w' & Hrun & Hst & _).
    rewrite Hrun. cbn [snd]. unfold with_call. cbn [stores]. rewrite Hst.
    split.
    + intros name u Hother.
      rewrite precached_entry_other by exact Hother.
      apply storage_open_entry.
    + intros name Hhas. rewrite precached_has.
      apply storage_open_keeps. exact Hhas.
Qed.

Lemma install_changes_only_listed_entries_witness :
  store_entry (stores (snd (install Scenario.online Scenario.upgraded)))
    "dosage-calculator-cache-v1.2" "https://example.org/app/" =
  Some Scenario.old_page
  /\ store_entry (stores (snd (install Scenario.online Scenario.upgraded)))
       CACHE_NAME "https://example.org/app/" = None.
Proof.
  destruct (install_changes_only_listed_entries
              Scenario.online urlsToCache Scenario.upgraded)
    as [Hentry _].
  split.
  - unfold install. rewrite Hentry; [reflexivity|].
    left. vm_compute. discriminate.
  - unfold install. rewrite Hentry; [reflexivity|].
    right. vm_compute. intros [H|[H|[]]]; discriminate.
Defined.

(** X13. When the storage refuses to open the store, the install handler
    fetches nothing and writes nothing: its promise is fulfilled, the
    error is logged on the console, the storage is as it was, and
    [skipWaiting] is called all the same. *)
Theorem install_without_store_fetches_nothing
    (host : Host) (urls : list string) (w : World) (e : JsError) :
  open_fault host CACHE_NAME = Some e ->
  fst (install_with host urls w) = Fulfilled None
  /\ stores (snd (install_with host urls w)) = stores w
  /\ calls (snd (install_with host urls w)) =
     calls w ++ [CallCachesOpen CACHE_NAME; CallSkipWaiting]
  /\ console (snd (install_with host urls w)) =
     console w ++
     [(Log, ["[ServiceWorker] Install"]);
      (Error, ["[ServiceWorker] Failed to cache during install:"; e])]
  /\ unhandled (snd (install_with host urls w)) = unhandled w.
Proof.
  intros Hopen. rewrite (install_refused host urls w Hopen).
  unfold console_error, console_log, with_line, with_call. simpl.
  rewrite <- !app_assoc. auto.
Qed.

Lemma install_without_store_fetches_nothing_witness :
  fst (install Scenario.no_storage Scenario.fresh) = Fulfilled None
  /\ stores (snd (install Scenario.no_storage Scenario.fresh)) = []
  /\ calls (snd (install Scenario.no_storage Scenario.fresh)) =
     [CallCachesOpen CACHE_NAME; CallSkipWaiting].
Proof.
  destruct (@install_without_store_fetches_nothing
              Scenario.no_storage urlsToCache Scenario.fresh
              "SecurityError" eq_refl)
    as (Hdone & Hstores & Hcalls & _).
  split; [exact Hdone|]. split; [exact Hstores | exact Hcalls].
Defined.

(** *** install, activate, fetch: one after the other *)

Lemma storage_match_current_hit (S : CacheStorage) (rq : Request)
    (r : Response) :
  method rq = "GET" ->
  store_entry S CACHE_NAME (url rq) = Some r ->
  storage_match (filter (fun e => String.eqb (fst e) CACHE_NAME) S) rq =
  Some r.
Proof.
  intros Hmethod. unfold store_entry.
  induction S as [|[k c] S IH]; simpl; [discriminate|].
  destruct (String.eqb k CACHE_NAME); simpl; [|exact IH].
  intros Hentry. unfold cache_match. rewrite Hmethod. simpl.
  rewrite Hentry. reflexivity.
Qed.

(** X14. The pre-cache serves offline.  From any state, after an install
    in which the store opened and the item for a url was fetched and
    stored, and after the activation, a GET request for that url with the
    network down is answered with the response stored at install: from
    the cache on the asset branch, by the fallback on the navigation
    branch. *)
Theorem precached_item_served_offline
    (host host' : Host) (urls : list string) (u : string) (r : Response)
    (rq : Request) (e : JsError) (w : World) :
  open_fault host CACHE_NAME = None ->
  In u urls ->
  attempt host u = Fulfilled r ->
  method rq = "GET" ->
  url rq = u ->
  network host' rq = Rejected e ->
  fst (fetch_handler host' rq
         (snd (activate (snd (install_with host urls w))))) =
  Some (Fulfilled (Some r)).
Proof.
  intros Hopen Hin Hok Hmethod Hurl Hnet.
  destruct (install_opened host urls w Hopen) as (w1 & Hrun & Hst & _).
  rewrite Hrun. cbn [snd].
  destruct (activate_run (with_call CallSkipWaiting w1)) as [vs Hact].
  rewrite Hact. cbn [snd].
  assert (Hmatch : storage_match
                     (filter (fun e0 => String.eqb (fst e0) CACHE_NAME)
                        (stores w1)) rq =
                   Some r).
  { apply storage_match_current_hit; [exact Hmethod|].
    rewrite Hst, Hurl.
    apply precached_entry_stored; [exact Hok | exact Hin|].
    apply storage_open_has. }
  unfold fetch_handler. rewrite Hmethod. simpl.
  destruct (String.eqb (mode rq) "navigate"); run_chain; simpl.
  - rewrite Hnet. simpl. rewrite Hmatch. reflexivity.
  - rewrite Hmatch. reflexivity.
Qed.

Lemma precached_item_served_offline_witness :
  fst (fetch_handler Scenario.offline Scenario.shell
         (snd (activate (snd (install Scenario.online Scenario.upgraded))))) =
  Some (Fulfilled (Some Scenario.page)).
Proof.
  apply (@precached_item_served_offline
           Scenario.online Scenario.offline urlsToCache "./" Scenario.page
           Scenario.shell "TypeError: Failed to fetch" Scenario.upgraded);
    try reflexivity.
  left. reflexivity.
Defined.

(** *** fetch: the page last seen, and the rejections left *)

Lemma storage_match_put_current (S : CacheStorage) (rq : Request)
    (r : Response) :
  method rq = "GET" ->
  storage_has S CACHE_NAME = true ->
  (forall name c, In (name, c) S -> name <> CACHE_NAME ->
     cache_match c rq = None) ->
  storage_match (storage_put S CACHE_NAME (url rq) r) rq = Some r.
Proof.
  intros Hmethod. unfold storage_has, storage_put.
  induction S as [|[k c] S IH]; simpl; [discriminate|].
  intros Hhas Hothers.
  destruct (String.eqb k CACHE_NAME) eqn:E; simpl.
  - unfold cache_match. rewrite Hmethod. simpl.
    rewrite cache_lookup_insert, String.eqb_refl. reflexivity.
  - apply String.eqb_neq in E.
    rewrite (Hothers k c) by (auto; left; reflexivity).
    apply IH; [exact Hhas|].
    intros name c' Hin. apply Hothers. right. exact Hin.
Qed.

Lemma storage_open_others (S : CacheStorage) (n name : string) (c : Cache) :
  In (name, c) (storage_open S n) -> name <> n -> In (name, c) S.
Proof.
  unfold storage_open. destruct (storage_has S n); [auto|].
  intros Hin Hname. apply in_app_or in Hin. destruct Hin as [Hin|Hin].
  - exact Hin.
  - simpl in Hin. destruct Hin as [Hin|[]]. inversion Hin. congruence.
Qed.

(** X15. The page last seen online is the page served offline: when no
    store of another name has an entry for the request, then after a
    navigation answered from the network with status 200 and type
    [basic], and cached, the same navigation with the network down is
    answered with that response, whatever the store [CACHE_NAME] held
    for it before. *)
Theorem navigate_offline_serves_last_online_page
    (host host' : Host) (rq : Request) (r : Response) (e : JsError)
    (w : World) :
  method rq = "GET" ->
  mode rq = "navigate" ->
  network host rq = Fulfilled (Some r) ->
  status r = 200 ->
  type r = "basic" ->
  open_fault host CACHE_NAME = None ->
  put_fault host CACHE_NAME rq (clone r) = None ->
  (forall name c, In (name, c) (stores w) -> name <> CACHE_NAME ->
     cache_match c rq = None) ->
  network host' rq = Rejected e ->
  fst (fetch_handler host' rq (snd (fetch_handler host rq w))) =
  Some (Fulfilled (Some (clone r))).
Proof.
  intros Hmethod Hmode Hnet Hstatus Htype Hopen Hput Hothers Hnet'.
  destruct (@navigate_online_run host rq r w Hmethod Hmode Hnet Hstatus
              Htype Hopen Hput) as (w' & Hrun & Hst & _).
  rewrite Hrun. cbn [snd].
  assert (Hmatch : storage_match (stores w') rq = Some (clone r)).
  { rewrite Hst. apply storage_match_put_current;
      [exact Hmethod | apply storage_open_has|].
    intros name c Hin Hname. apply (Hothers name c); [|exact Hname].
    eapply storage_open_others; eassumption. }
  unfold fetch_handler. rewrite Hmethod, Hmode. simpl.
  run_chain. rewrite Hnet'. simpl. rewrite Hmatch. reflexivity.
Qed.

Lemma navigate_offline_serves_last_online_page_witness :
  fst (fetch_handler Scenario.offline Scenario.shell
         (snd (fetch_handler Scenario.online Scenario.shell
                 Scenario.visited))) =
  Some (Fulfilled (Some Scenario.page)).
Proof.
  apply (@navigate_offline_serves_last_online_page
           Scenario.online Scenario.offline Scenario.shell Scenario.page
           "TypeError: Failed to fetch" Scenario.visited);
    try reflexivity.
  intros name c [H|[]] Hname. inversion H. congruence.
Defined.

(** X16. Over any sequence of fetch events on hosts whose storage accepts
    to open the store [CACHE_NAME] and to write into it, no rejection is
    left unhandled: the only rejections that the handler leaves are those
    of a refused cache write. *)
Theorem fetch_leaves_rejections_only_of_refused_writes
    (events : list (Host * Request)) (w : World) :
  Forall (fun ev =>
            open_fault (fst ev) CACHE_NAME = None
            /\ forall r, put_fault (fst ev) CACHE_NAME (snd ev) r = None)
         events ->
  unhandled (serve events w) = unhandled w.
Proof.
  intros Hevents. revert w.
  induction Hevents as [|[host rq] events [Hopen Hput] _ IH]; intros w.
  - reflexivity.
  - cbn [serve]. rewrite IH. simpl in Hopen, Hput.
    apply fetch_handler_unhandled; assumption.
Qed.

Lemma fetch_leaves_rejections_only_of_refused_writes_witness :
  unhandled
    (serve [(Scenario.online, Scenario.navigation);
            (Scenario.offline, Scenario.script);
            (Scenario.cdn, Scenario.script);
            (Scenario.missing, Scenario.form_post)]
       Scenario.upgraded) = [].
Proof.
  apply (@fetch_leaves_rejections_only_of_refused_writes
           [(Scenario.online, Scenario.navigation);
            (Scenario.offline, Scenario.script);
            (Scenario.cdn, Scenario.script);
            (Scenario.missing, Scenario.form_post)]
           Scenario.upgraded).
  repeat constructor.
Defined.
